(** * Cart store and article catalogue of the moberry storefront

    A shallow embedding of two client-side components:

    - [Cart]: the [StateContext] provider (shopping cart, its incrementally
      maintained totals, the quantity selector and the confirmation toast);
    - [Insights]: the view model of [InsightsPage] (static and fetched
      articles, search, category filter, pagination).

    Modelling conventions.

    - A JavaScript [number] that counts things (a quantity, a page number)
      is embedded as [Z].  A [number] that is an amount of money (a price,
      [totalPrice]) is kept abstract: the store is defined over any
      arithmetic [Money], of which the binary64 doubles of the runtime and
      the integers are two instances, so what is proved of the store without
      a law of arithmetic holds of the doubles.
    - A JavaScript string is embedded as [string]; [===] on strings is
      decidable equality, a template literal is concatenation.
    - A React state cell is a record field.  A handler runs against the
      values captured by the render it belongs to and queues its updates,
      which React applies together before the next render; one handler runs
      per render, so a handler is a function from the rendered state to the
      next state.  An effect runs after the render whose dependencies
      changed, so the state it sets is rendered one render later. *)

From Stdlib Require Import ZArith Lia.
From Stdlib Require QArith Qround.
From Stdlib Require Floats.PrimFloat Floats.SpecFloat Floats.FloatOps.
From stdpp Require Import base tactics decidable option strings pretty functions sets list.

Local Open Scope Z_scope.

(** ** Array methods of the JavaScript runtime used by both components *)

Section ArrayMethods.
Context {A : Type}.

(** [arr.find(pred)]: the first element satisfying [pred], if any. *)
Definition find (P : A → Prop) `{∀ x, Decision (P x)} (l : list A) : option A :=
  snd <$> list_find P l.

(** [arr.findIndex(pred)]: the index of that element, [-1] if none. *)
Definition findIndex (P : A → Prop) `{∀ x, Decision (P x)} (l : list A) : Z :=
  from_option (λ r, Z.of_nat (fst r)) (-1) (list_find P l).

(** A relative index as [slice] and [splice] normalise it: negative
    indices count from the end, everything is clamped to [0, len]. *)
Definition relative_index (len i : Z) : Z :=
  if i <? 0 then Z.max (len + i) 0 else Z.min i len.

(** [arr.splice(start, 0, x)]: insert [x] before position [start]. *)
Definition splice_insert (start : Z) (x : A) (l : list A) : list A :=
  let k := Z.to_nat (relative_index (Z.of_nat (length l)) start) in
  take k l ++ x :: drop k l.

(** [arr.slice(start, end)]. *)
Definition slice (l : list A) (start end_ : Z) : list A :=
  let len := Z.of_nat (length l) in
  let k := relative_index len start in
  let final := relative_index len end_ in
  take (Z.to_nat (final - k)) (drop (Z.to_nat k) l).
End ArrayMethods.

(** ** The cart store *)

Module Cart.

(** *** Amounts of money

    The operations the store applies to prices and to [totalPrice]: the
    literal [0], [+], [-], and [price * quantity] with the quantity an
    integer. *)
Class Money := {
  money : Type;
  money_zero : money;
  money_add : money → money → money;
  money_sub : money → money → money;
  money_mul : money → Z → money
}.

Declare Scope money_scope.
Delimit Scope money_scope with money.
Bind Scope money_scope with money.
Notation "0" := money_zero : money_scope.
Infix "+" := money_add : money_scope.
Infix "-" := money_sub : money_scope.
Infix "*" := money_mul : money_scope.

(** Integer amounts: the arithmetic is exact. *)
Definition integer_money : Money :=
  {| money := Z; money_zero := 0%Z; money_add := Z.add; money_sub := Z.sub;
     money_mul := Z.mul |}.

(** The double nearest to an integer, as the runtime holds a quantity. *)
Definition double_of_Z (q : Z) : PrimFloat.float :=
  FloatOps.SF2Prim (SpecFloat.binary_normalize FloatOps.prec FloatOps.emax q 0 false).

(** The amounts of the runtime: IEEE 754 binary64 with its rounding. *)
Definition double_money : Money :=
  {| money := PrimFloat.float; money_zero := PrimFloat.zero;
     money_add := PrimFloat.add; money_sub := PrimFloat.sub;
     money_mul := λ p q, PrimFloat.mul p (double_of_Z q) |}.

Section Store.
Context {M : Money}.

(** [interface Product] *)
Record Product := mkProduct {
  id : string;
  name : string;
  price : money;
  quantity : Z;
  weight : string;
  image : string
}.

(** [{ ...p, quantity: q }] *)
Definition with_quantity (p : Product) (q : Z) : Product :=
  {| id := id p; name := name p; price := price p; quantity := q;
     weight := weight p; image := image p |}.

(** [p.quantity = q; p.id = i] on a product object. *)
Definition assign_quantity_id (p : Product) (q : Z) (i : string) : Product :=
  {| id := i; name := name p; price := price p; quantity := q;
     weight := weight p; image := image p |}.

(** ['inc' | 'dec'] *)
Inductive Direction := inc | dec.

(** The [useState] cells of [StateContext]. *)
Record State := mkState {
  showCart : bool;
  cartItems : list Product;
  totalPrice : money;
  totalQuantities : Z;
  qty : Z;
  indexColor : Z;
  active : bool
}.

(** The values passed to [useState] on mount. *)
Definition initial : State :=
  {| showCart := false; cartItems := []; totalPrice := 0%money;
     totalQuantities := 0; qty := 1; indexColor := 1; active := false |}.

(** State setters.  [setTotalPrice], [setTotalQuantities] and [setQty] are
    called with updater functions, [setCartItems] with a value. *)
Definition setCartItems (items : list Product) (s : State) : State :=
  {| showCart := showCart s; cartItems := items; totalPrice := totalPrice s;
     totalQuantities := totalQuantities s; qty := qty s;
     indexColor := indexColor s; active := active s |}.

Definition setTotalPrice (f : money → money) (s : State) : State :=
  {| showCart := showCart s; cartItems := cartItems s;
     totalPrice := f (totalPrice s);
     totalQuantities := totalQuantities s; qty := qty s;
     indexColor := indexColor s; active := active s |}.

Definition setTotalQuantities (f : Z → Z) (s : State) : State :=
  {| showCart := showCart s; cartItems := cartItems s;
     totalPrice := totalPrice s;
     totalQuantities := f (totalQuantities s); qty := qty s;
     indexColor := indexColor s; active := active s |}.

Definition setQty (f : Z → Z) (s : State) : State :=
  {| showCart := showCart s; cartItems := cartItems s;
     totalPrice := totalPrice s;
     totalQuantities := totalQuantities s; qty := f (qty s);
     indexColor := indexColor s; active := active s |}.

(** [`${product.id}-${product.weight}`] *)
Definition uniqueId (product : Product) : string :=
  id product +:+ "-" +:+ weight product.

(** [`${qty} ${product.name} (${product.weight}) added to the cart.`] *)
Definition toast_message (n : Z) (product : Product) : string :=
  pretty n +:+ " " +:+ name product +:+ " (" +:+ weight product
    +:+ ") added to the cart.".

(** What a call of [onAdd] leaves behind: the queued state updates applied,
    the caller's product object as the call left it, and the text handed
    to [toast.success]. *)
Record AddOutcome := mkAddOutcome {
  add_state : State;
  add_product : Product;
  add_toast : string
}.

(** [onAdd].  [cartItems] and [qty] are the values of the render [s]; the
    totals are raised through updater functions.  When the key is new the
    product object itself is assigned to, then copied into the cart. *)
Definition onAdd (product : Product) (quantity : Z) (s : State) : AddOutcome :=
  let uniqueId := uniqueId product in
  let checkProductInCart := find (λ item, id item = uniqueId) (cartItems s) in
  let s' := setTotalPrice
              (λ prevTotalPrice, (prevTotalPrice + price product * quantity)%money) s in
  let s' := setTotalQuantities
              (λ prevTotalQuantities, prevTotalQuantities + quantity) s' in
  match checkProductInCart with
  | Some _ =>
      let updatedCartItems :=
        map (λ cartProduct,
               if decide (uniqueId = id cartProduct)
               then with_quantity cartProduct (Store.quantity cartProduct + quantity)
               else cartProduct)
            (cartItems s) in
      {| add_state := setCartItems updatedCartItems s';
         add_product := product;
         add_toast := toast_message (qty s) product |}
  | None =>
      let product := assign_quantity_id product quantity uniqueId in
      {| add_state := setCartItems (cartItems s ++ [product]) s';
         add_product := product;
         add_toast := toast_message (qty s) product |}
  end.

(** [onRemove].  [foundProduct] and [index] are variables of the render
    that a handler assigns before it reads them; nothing reads them after
    the handler's updates have been applied, so they are bound locally. *)
Definition onRemove (product : Product) (s : State) : State :=
  match find (λ item, id item = id product) (cartItems s) with
  | None => s
  | Some foundProduct =>
      let newCartItems := filter (λ item, id item ≠ id product) (cartItems s) in
      let s' := setTotalPrice
                  (λ prevTotalPrice,
                     (prevTotalPrice - price foundProduct * quantity foundProduct)%money)
                  s in
      let s' := setTotalQuantities
                  (λ prevTotalQuantities, prevTotalQuantities - quantity foundProduct) s' in
      setCartItems newCartItems s'
  end.

(** [toggleCartItemQuanitity]: the line item is taken out of the list and
    its updated copy spliced in at the index it was found at. *)
Definition toggleCartItemQuanitity (i : string) (value : Direction) (s : State) : State :=
  match find (λ item, id item = i) (cartItems s) with
  | None => s
  | Some foundProduct =>
      let index := findIndex (λ product, id product = i) (cartItems s) in
      let newCartItems := filter (λ item, id item ≠ i) (cartItems s) in
      match value with
      | inc =>
          let newCartItems :=
            splice_insert index
              (with_quantity foundProduct (quantity foundProduct + 1)) newCartItems in
          let s' := setCartItems newCartItems s in
          let s' := setTotalPrice
                      (λ prevTotalPrice, (prevTotalPrice + price foundProduct)%money) s' in
          setTotalQuantities (λ prevTotalQuantities, prevTotalQuantities + 1) s'
      | dec =>
          if decide (quantity foundProduct > 1) then
            let newCartItems :=
              splice_insert index
                (with_quantity foundProduct (quantity foundProduct - 1)) newCartItems in
            let s' := setCartItems newCartItems s in
            let s' := setTotalPrice
                        (λ prevTotalPrice, (prevTotalPrice - price foundProduct)%money) s' in
            setTotalQuantities (λ prevTotalQuantities, prevTotalQuantities - 1) s'
          else s
      end
  end.

(** The quantity selector of the product pages. *)
Definition incQty (s : State) : State := setQty (λ prevQty, prevQty + 1) s.

Definition decQty (s : State) : State :=
  setQty (λ prevQty, if decide (prevQty - 1 < 1) then 1 else prevQty - 1) s.

(** *** Calls on product objects

    [onAdd] assigns to fields of the object it is handed, so what a later
    call sees depends on which object the caller passes.  A [World] holds
    the caller's product objects by reference, the state of the provider
    and the toasts emitted so far. *)

Definition ref := nat.

Record World := mkWorld {
  objects : ref → Product;
  context : State;
  toasts : list string
}.

Definition call_onAdd (product : ref) (quantity : Z) (w : World) : World :=
  let r := onAdd (objects w product) quantity (context w) in
  {| objects := <[product := add_product r]> (objects w);
     context := add_state r;
     toasts := toasts w ++ [add_toast r] |}.

Definition call_onRemove (product : ref) (w : World) : World :=
  {| objects := objects w;
     context := onRemove (objects w product) (context w);
     toasts := toasts w |}.

Definition call_toggleCartItemQuanitity (i : string) (value : Direction)
    (w : World) : World :=
  {| objects := objects w;
     context := toggleCartItemQuanitity i value (context w);
     toasts := toasts w |}.

(** *** Sequences of cart operations *)

Inductive Op :=
| Add (product : Product) (quantity : Z)
| Remove (product : Product)
| Toggle (i : string) (value : Direction).

Definition step (s : State) (o : Op) : State :=
  match o with
  | Add product quantity => add_state (onAdd product quantity s)
  | Remove product => onRemove product s
  | Toggle i value => toggleCartItemQuanitity i value s
  end.

Definition run (s : State) (ops : list Op) : State := foldl step s ops.

(** Some line item carries identifier [i]. *)
Definition in_cart (i : string) (s : State) : bool :=
  bool_decide (i ∈ map id (cartItems s)).

(** The aggregates recomputed from the line items. *)
Definition sum_price (items : list Product) : money :=
  foldr (λ item acc, (price item * quantity item + acc)%money) 0%money items.

Definition sum_quantity (items : list Product) : Z :=
  foldr (λ item acc, quantity item + acc) 0 items.

Definition consistent (s : State) : Prop :=
  totalPrice s = sum_price (cartItems s) ∧
  totalQuantities s = sum_quantity (cartItems s).

(** No two line items share an identifier. *)
Definition distinct_ids (s : State) : Prop := NoDup (map id (cartItems s)).

(** [ok] holds of every operation of [ops] in the state it is applied to. *)
Fixpoint all_along (ok : State → Op → bool) (s : State) (ops : list Op) : bool :=
  match ops with
  | [] => true
  | o :: ops => ok s o && all_along ok (step s o) ops
  end.

(** A removal or an adjustment names a line item of the cart. *)
Definition targets_exist (s : State) (o : Op) : bool :=
  match o with
  | Add _ _ => true
  | Remove product => in_cart (id product) s
  | Toggle i _ => in_cart i s
  end.

(** Totals of a list of adds, each a product with the quantity added; the
    amounts are accumulated in the order of the adds. *)
Definition added_quantity (adds : list (Product * Z)) : Z :=
  foldr (λ a acc, snd a + acc) 0 adds.

Definition added_price (adds : list (Product * Z)) : money :=
  foldl (λ acc a, (acc + price (fst a) * snd a)%money) 0%money adds.

(** The quantity added under composite key [k]. *)
Definition added_under (k : string) (adds : list (Product * Z)) : Z :=
  foldr (λ a acc, if decide (uniqueId (fst a) = k) then snd a + acc else acc) 0 adds.

Definition as_ops (adds : list (Product * Z)) : list Op :=
  map (λ a, Add (fst a) (snd a)) adds.

(** The quantity the cart holds under identifier [k]. *)
Definition quantity_under (k : string) (items : list Product) : Z :=
  sum_quantity (filter (λ item, id item = k) items).

(** The second of two adds of one product object inserts a line item. *)
Definition second_add_inserts (w : World) (product : ref)
    (quantity quantity2 : Z) : Prop :=
  let w1 := call_onAdd product quantity w in
  let w2 := call_onAdd product quantity2 w1 in
  length (cartItems (context w2)) = S (length (cartItems (context w1))).

Definition positive_quantities (s : State) : Prop :=
  Forall (λ item, 1 ≤ quantity item) (cartItems s).

(** The states the provider reaches from mount through its cart
    operations and the quantity selector, adds being of at least one unit. *)
Inductive reachable : State → Prop :=
| reach_initial : reachable initial
| reach_onAdd s product quantity :
    reachable s → 1 ≤ quantity → reachable (add_state (onAdd product quantity s))
| reach_onRemove s product :
    reachable s → reachable (onRemove product s)
| reach_toggle s i value :
    reachable s → reachable (toggleCartItemQuanitity i value s)
| reach_incQty s : reachable s → reachable (incQty s)
| reach_decQty s : reachable s → reachable (decQty s).

End Store.

(** *** Integer amounts *)

#[local] Existing Instance integer_money.

(** An add that merges into a line item quotes that item's stored price. *)
Definition merge_at_stored_price (s : State) (o : Op) : bool :=
  match o with
  | Add product _ =>
      forallb (λ item, bool_decide (id item = uniqueId product → price item = price product))
              (cartItems s)
  | _ => true
  end.

(** *** Sample data used by the worked examples *)

Definition punnet (price : Z) : Product :=
  {| id := "p1"; name := "Blueberries"; price := price; quantity := 1;
     weight := "500g"; image := "/images/p1.jpg" |}.

(** Two adds, a round trip on the quantity, then a removal. *)
Definition sample_session : list Op :=
  [Add (punnet 100) 2; Add (punnet 100) 3; Toggle "p1-500g" inc;
   Toggle "p1-500g" dec; Remove (assign_quantity_id (punnet 100) 5 "p1-500g")].

(** The same product and weight added twice, quoted at two prices. *)
Definition repriced_adds : list (Product * Z) :=
  [(punnet 100, 1); (punnet 200, 1)].

(** Product objects held by a caller: object 0 is a product whose own
    identifier already looks like a composite key, every other object is
    the plain punnet. *)
Definition shelf (r : ref) : Product :=
  match r with
  | O => {| id := "p1-500g"; name := "Blueberries"; price := 100; quantity := 1;
            weight := "500g"; image := "/images/p1.jpg" |}
  | _ => punnet 100
  end.

Definition mount (objs : ref → Product) : World :=
  {| objects := objs; context := initial; toasts := [] |}.

(** The world after object 0 was added once: the cart holds the single line
    item [p1-500g-500g]. *)
Definition preloaded : World := call_onAdd 0%nat 1 (mount shelf).

(** Then object 1 added with quantity 2: a second line item [p1-500g]. *)
Definition stocked : World := call_onAdd 1%nat 2 preloaded.

(** *** Amounts in doubles *)

(** A product sold by the piece, priced at the double nearest to
    [n / d]. *)
Definition priced (i : string) (n d : Z) : @Product double_money :=
  @mkProduct double_money i "Blueberry"
    (PrimFloat.div (double_of_Z n) (double_of_Z d)) 1 "1pc" "/images/p2.jpg".

Definition tenth : @Product double_money := priced "p2" 1 10.

Definition fifth : @Product double_money := priced "p3" 1 5.

(** One add of a single unit, then nine increments. *)
Definition ten_tenths : list (@Op double_money) :=
  Add tenth 1 :: replicate 9 (Toggle "p2-1pc" inc).

(** The cart after one unit at 0.1 and one unit at 0.2 were added. *)
Definition two_lines : @State double_money :=
  run initial [Add tenth 1; Add fifth 1].

(** The cart after six units at 4.99 were added. *)
Definition six_pack : @State double_money :=
  run initial [Add (priced "p4" 499 100) 6].

(** A caller holding the product at 0.2, the cart holding one unit at
    0.1. *)
Definition counter : @World double_money :=
  {| objects := λ _, fifth; context := run initial [Add tenth 1]; toasts := [] |}.

End Cart.

(** ** The article catalogue *)

Module Insights.

(** ['static' | 'pseo'] *)
Inductive Source := static | pseo.

(** [interface Article] *)
Record Article := mkArticle {
  id : string;
  slug : string;
  title : string;
  excerpt : string;
  date : string;
  readTime : string;
  category : string;
  image : string;
  tags : list string;
  source : Source
}.

(** The articles compiled into the page, in authored order. *)
Definition staticArticles : list Article :=
  [
    {| id := "1";
       slug := "global-blueberry-price-trends";
       title := "Global Blueberry Wholesale Price Trends 2025-2035";
       excerpt := "Market analysis reveals 6-7.2% CAGR growth driven by increasing global demand and health consciousness. Discover the factors shaping blueberry prices over the next decade.";
       date := "December 2024";
       readTime := "8 min read";
       category := "Market Analysis";
       image := "/images/Blueberry Lifecycle.jpg";
       tags := ["Price Trends"; "Market Analysis"; "Investment"];
       source := static |};
    {| id := "6";
       slug := "google-trends-blueberry-demand-india";
       title := "Google Trends Reveal 9% Growth in Blueberry Interest: India's Rising Opportunity";
       excerpt := "Google search data shows 8.5M monthly searches for blueberries with 9% year-over-year growth, highlighting massive untapped potential in the Indian market as global demand soars.";
       date := "December 2024";
       readTime := "6 min read";
       category := "Market Research";
       image := "/images/Blueberry Plant in a Polyhouse.jpg";
       tags := ["Google Trends"; "Market Demand"; "India Opportunity"];
       source := static |};
    {| id := "2";
       slug := "blueberry-farming-india";
       title := "Why Blueberry Farming is the Future of Agriculture in India";
       excerpt := "Explore how blueberry cultivation is transforming Indian agriculture with high returns, sustainable practices, and growing domestic demand.";
       date := "December 2024";
       readTime := "6 min read";
       category := "Farming Guide";
       image := "/images/Blueberry Rows in Polytunnel in Fruiting Phase.jpg";
       tags := ["India"; "Farming"; "Sustainability"];
       source := static |};
    {| id := "3";
       slug := "health-benefits-blueberries";
       title := "The Science Behind Blueberries: Health Benefits That Drive Demand";
       excerpt := "From antioxidants to brain health, discover why health-conscious consumers are driving unprecedented demand for blueberries worldwide.";
       date := "December 2024";
       readTime := "5 min read";
       category := "Health & Nutrition";
       image := "/images/Blueberry Pudding.jpg";
       tags := ["Health"; "Nutrition"; "Consumer Trends"];
       source := static |};
    {| id := "4";
       slug := "blueberry-varieties-india";
       title := "Best Blueberry Varieties for Indian Climate: A Comprehensive Guide";
       excerpt := "Learn about the most suitable blueberry cultivars for different Indian regions, their yield potential, and climate requirements.";
       date := "December 2024";
       readTime := "7 min read";
       category := "Technical Guide";
       image := "/images/The Life Cycle of a Blueberry.jpeg";
       tags := ["Varieties"; "Climate"; "Technical"];
       source := static |};
    {| id := "5";
       slug := "roi-analysis-blueberry-farming";
       title := "ROI Analysis: Blueberry Farming vs Traditional Crops";
       excerpt := "A detailed financial comparison showing why blueberry farming offers 5X returns compared to traditional Indian crops.";
       date := "December 2024";
       readTime := "10 min read";
       category := "Financial Analysis";
       image := "/images/hero-desktop.jpg";
       tags := ["ROI"; "Financial"; "Comparison"];
       source := static |};
    {| id := "12";
       slug := "blueberry-export-opportunities-india";
       title := "India's Blueberry Export Potential: Tapping Global Markets";
       excerpt := "Explore the untapped potential of blueberry exports from India to international markets. Learn about global demand, quality standards, and profit margins.";
       date := "December 2024";
       readTime := "8 min read";
       category := "Export Strategy";
       image := "/images/Blueberry Lifecycle.jpg";
       tags := ["Export"; "Global Markets"; "International Trade"];
       source := static |};
    {| id := "13";
       slug := "climate-controlled-farming-benefits";
       title := "Climate-Controlled Blueberry Farming: 5X Higher Yields";
       excerpt := "Discover how polyhouse cultivation and climate control systems boost blueberry yields by 500% compared to open-field farming.";
       date := "December 2024";
       readTime := "6 min read";
       category := "Technology";
       image := "/images/Blueberry Plant in a Polyhouse.jpg";
       tags := ["Climate Control"; "Polyhouse"; "Technology"];
       source := static |};
    {| id := "14";
       slug := "government-subsidies-blueberry-farming";
       title := "Government Subsidies for Blueberry Farming: Save Up to 50%";
       excerpt := "Complete guide to agricultural subsidies, grants, and support schemes available for blueberry farming in India. Reduce your investment by up to 50%.";
       date := "December 2024";
       readTime := "9 min read";
       category := "Government Schemes";
       image := "/images/Blueberry Rows in Polytunnel in Fruiting Phase.jpg";
       tags := ["Subsidies"; "Government"; "Financial Support"];
       source := static |};
    {| id := "15";
       slug := "organic-blueberry-certification-india";
       title := "Organic Blueberry Certification: Premium Pricing Strategy";
       excerpt := "Learn how organic certification can increase your blueberry prices by 40-60%. Step-by-step guide to organic farming and certification process.";
       date := "December 2024";
       readTime := "7 min read";
       category := "Organic Farming";
       image := "/images/The Life Cycle of a Blueberry.jpeg";
       tags := ["Organic"; "Certification"; "Premium Pricing"];
       source := static |};
    {| id := "7";
       slug := "../tea-estate-partnership";
       title := "Tea Estate Partnership: Convert Your Tea Garden to Blueberry Farm";
       excerpt := "Transform your tea estate into a high-yield blueberry farm with 6x higher profits. Explore sub-lease, joint venture, or land sale options with 20-35% ROI.";
       date := "December 2024";
       readTime := "12 min read";
       category := "Partnership Opportunities";
       image := "/images/Blueberry Plant in a Polyhouse.jpg";
       tags := ["Tea Estate"; "Partnership"; "Land Conversion"];
       source := static |};
    {| id := "8";
       slug := "../investment/west-bengal/siliguri";
       title := "Blueberry Farming Investment in Siliguri: Complete Guide";
       excerpt := "Discover why Siliguri offers ideal conditions for blueberry farming with excellent climate, soil pH, and government support. Calculate your ROI for this emerging opportunity.";
       date := "December 2024";
       readTime := "10 min read";
       category := "Location Investment";
       image := "/images/The Life Cycle of a Blueberry.jpeg";
       tags := ["Siliguri"; "West Bengal"; "Investment Calculator"];
       source := static |};
    {| id := "9";
       slug := "../investment/assam/guwahati";
       title := "Guwahati Blueberry Farm Investment: Northeast India Opportunity";
       excerpt := "Explore blueberry farming investment opportunities in Guwahati with detailed climate analysis, soil conditions, and projected returns in Assam's agricultural hub.";
       date := "December 2024";
       readTime := "10 min read";
       category := "Location Investment";
       image := "/images/Blueberry Rows in Polytunnel in Fruiting Phase.jpg";
       tags := ["Guwahati"; "Assam"; "Northeast India"];
       source := static |};
    {| id := "10";
       slug := "../investment/meghalaya/shillong";
       title := "Shillong Blueberry Cultivation: Hill Station Farming Advantage";
       excerpt := "Leverage Shillong's unique hill climate and acidic soil for premium blueberry cultivation. Learn about Meghalaya's agricultural policies and investment incentives.";
       date := "December 2024";
       readTime := "9 min read";
       category := "Location Investment";
       image := "/images/Blueberry Plant in a Polyhouse.jpg";
       tags := ["Shillong"; "Meghalaya"; "Hill Station Farming"];
       source := static |};
    {| id := "11";
       slug := "../investment/sikkim/gangtok";
       title := "Gangtok Blueberry Farming: High-Altitude Organic Advantage";
       excerpt := "Discover why Gangtok's high-altitude climate and organic farming tradition make it perfect for premium blueberry cultivation with excellent export potential.";
       date := "December 2024";
       readTime := "9 min read";
       category := "Location Investment";
       image := "/images/Blueberry Lifecycle.jpg";
       tags := ["Gangtok"; "Sikkim"; "High Altitude"];
       source := static |}
  ].

(** What the page takes from the JavaScript runtime: [String.toLowerCase],
    [replace(/\s+/g, '-')] with the runtime's own class of white space, and
    the rendering of a creation timestamp by
    [toLocaleDateString('en-US', { month: 'long', year: 'numeric' })]. *)
Class Runtime := {
  toLowerCase : string → string;
  replaceWhitespace : string → string;
  toLocaleDateString : string → string
}.

(** [s.includes(t)]: [t] occurs in [s] at some position. *)
Fixpoint includes (s t : string) : bool :=
  String.prefix t s ||
  match s with
  | EmptyString => false
  | String _ s' => includes s' t
  end.

(** A record of the remote collection, typed [any] in the source; these are
    the properties the page reads. *)
Module Seo.
Record Page := mkPage {
  id : string;
  state : string;
  city : string;
  metaTitle : string;
  metaDescription : string;
  createdAt : string
}.
End Seo.

Definition stockImages : list string :=
  ["Blueberry Lifecycle.jpg"; "Blueberry Plant in a Polyhouse.jpg";
   "Blueberry Rows in Polytunnel in Fruiting Phase.jpg";
   "The Life Cycle of a Blueberry.jpeg"].

(** [convertPSEOToArticle]; [pick] is the value of
    [Math.floor(Math.random() * 4)] drawn by the call. *)
Definition convertPSEOToArticle `{Runtime} (seoPage : Seo.Page) (pick : nat) : Article :=
  {| id := Seo.id seoPage;
     slug := "../investment/" +:+ replaceWhitespace (toLowerCase (Seo.state seoPage))
               +:+ "/" +:+ replaceWhitespace (toLowerCase (Seo.city seoPage));
     title := Seo.metaTitle seoPage;
     excerpt := Seo.metaDescription seoPage;
     date := toLocaleDateString (Seo.createdAt seoPage);
     readTime := "10 min read";
     category := "Location Investment";
     image := "/images/" +:+ nth pick stockImages "undefined";
     tags := [Seo.city seoPage; Seo.state seoPage; "Investment Guide"];
     source := pseo |}.

(** The [useState] cells of [InsightsPage]. *)
Record ViewState := mkViewState {
  searchQuery : string;
  selectedCategory : string;
  currentPage : Z;
  pseoPages : list Article;
  loading : bool;
  totalPages : Z
}.

(** The values passed to [useState] on mount. *)
Definition initialView : ViewState :=
  {| searchQuery := ""; selectedCategory := "All"; currentPage := 1;
     pseoPages := []; loading := true; totalPages := 1 |}.

Definition setSearchQuery (text : string) (s : ViewState) : ViewState :=
  {| searchQuery := text; selectedCategory := selectedCategory s;
     currentPage := currentPage s; pseoPages := pseoPages s;
     loading := loading s; totalPages := totalPages s |}.

Definition setSelectedCategory (c : string) (s : ViewState) : ViewState :=
  {| searchQuery := searchQuery s; selectedCategory := c;
     currentPage := currentPage s; pseoPages := pseoPages s;
     loading := loading s; totalPages := totalPages s |}.

Definition setCurrentPage (f : Z → Z) (s : ViewState) : ViewState :=
  {| searchQuery := searchQuery s; selectedCategory := selectedCategory s;
     currentPage := f (currentPage s); pseoPages := pseoPages s;
     loading := loading s; totalPages := totalPages s |}.

Definition setPseoPages (pages : list Article) (s : ViewState) : ViewState :=
  {| searchQuery := searchQuery s; selectedCategory := selectedCategory s;
     currentPage := currentPage s; pseoPages := pages;
     loading := loading s; totalPages := totalPages s |}.

Definition setLoading (b : bool) (s : ViewState) : ViewState :=
  {| searchQuery := searchQuery s; selectedCategory := selectedCategory s;
     currentPage := currentPage s; pseoPages := pseoPages s;
     loading := b; totalPages := totalPages s |}.

(** *** The remote fetch *)

(** How [response.json()] and [data.pages.map(convertPSEOToArticle)] fare:
    either something throws (the body is not JSON, [pages] is missing or
    holds a record that cannot be converted), or the body holds the pages,
    each paired with the image pick of its conversion. *)
Inductive Body :=
| Unreadable (error : string)
| Pages (pages : list (Seo.Page * nat)).

(** How the [fetch] of the collection ends: the promise rejects, or a
    response arrives with its [ok] flag and body. *)
Inductive FetchOutcome :=
| Rejected (error : string)
| Responded (ok : bool) (body : Body).

(** [console.error('Error fetching pSEO pages:', error)] *)
Definition console_error (error : string) : string :=
  "Error fetching pSEO pages: " +:+ error.

(** [fetchPSEOPages]: the state after the [finally] block, and what was
    written to the console. *)
Definition fetchPSEOPages `{Runtime} (outcome : FetchOutcome) (s : ViewState)
    : ViewState * list string :=
  match outcome with
  | Rejected error => (setLoading false s, [console_error error])
  | Responded false _ => (setLoading false s, [])
  | Responded true (Unreadable error) => (setLoading false s, [console_error error])
  | Responded true (Pages pages) =>
      let convertedPages := map (λ p, convertPSEOToArticle (fst p) (snd p)) pages in
      (setLoading false (setPseoPages convertedPages s), [])
  end.

(** The fetch brought no pages: it was rejected, answered with a
    non-success status, or its body could not be used. *)
Definition fetch_failed (outcome : FetchOutcome) : bool :=
  match outcome with
  | Rejected _ => true
  | Responded false _ => true
  | Responded true (Unreadable _) => true
  | Responded true (Pages _) => false
  end.

(** *** Values derived on each render *)

Definition itemsPerPage : Z := 12.

(** [[...new Set(l)]]: the distinct elements in order of first occurrence. *)
Fixpoint distinct_from (seen l : list string) : list string :=
  match l with
  | [] => []
  | x :: l => if decide (x ∈ seen) then distinct_from seen l
              else x :: distinct_from (x :: seen) l
  end.

Section Derived.
Context `{Runtime}.

Definition allArticles (s : ViewState) : list Article :=
  staticArticles ++ pseoPages s.

Definition categories (s : ViewState) : list string :=
  "All" :: distinct_from [] (map category (allArticles s)).

Definition matchesSearch (s : ViewState) (article : Article) : bool :=
  includes (toLowerCase (title article)) (toLowerCase (searchQuery s)) ||
  includes (toLowerCase (excerpt article)) (toLowerCase (searchQuery s)) ||
  existsb (λ tag, includes (toLowerCase tag) (toLowerCase (searchQuery s)))
          (tags article).

Definition matchesCategory (s : ViewState) (article : Article) : bool :=
  bool_decide (selectedCategory s = "All") ||
  bool_decide (category article = selectedCategory s).

Definition filteredArticles (s : ViewState) : list Article :=
  List.filter (λ article, matchesSearch s article && matchesCategory s article)
              (allArticles s).

(** [Math.ceil(filteredArticles.length / itemsPerPage)] *)
Definition totalFilteredPages (s : ViewState) : Z :=
  Qround.Qceiling
    (QArith_base.Qdiv (QArith_base.inject_Z (Z.of_nat (length (filteredArticles s))))
                      (QArith_base.inject_Z itemsPerPage)).

Definition startIndex (s : ViewState) : Z := (currentPage s - 1) * itemsPerPage.

Definition paginatedArticles (s : ViewState) : list Article :=
  slice (filteredArticles s) (startIndex s) (startIndex s + itemsPerPage).

(** *** Handlers and the reset effect *)

(** [useEffect(() => setCurrentPage(1), [searchQuery, selectedCategory])]
    after the render of [next] that follows the render of [prev]: the
    effect runs when one of its dependencies changed. *)
Definition resetPageEffect (prev next : ViewState) : ViewState :=
  if decide (searchQuery next = searchQuery prev ∧
             selectedCategory next = selectedCategory prev)
  then next
  else setCurrentPage (λ _, 1) next.

Inductive Event :=
| Fetched (outcome : FetchOutcome)
| SearchChanged (text : string)
| CategoryClicked (c : string)
| PreviousClicked
| NextClicked
| PageClicked (i : nat)
| LastPageClicked.

(** The state updates queued by the handler of an event.  The numbered
    page buttons are indexed from 0, button [i] selecting page [i + 1]. *)
Definition handle (e : Event) (s : ViewState) : ViewState :=
  match e with
  | Fetched outcome => fst (fetchPSEOPages outcome s)
  | SearchChanged text => setSearchQuery text s
  | CategoryClicked c => setSelectedCategory c s
  | PreviousClicked => setCurrentPage (λ prev, Z.max (prev - 1) 1) s
  | NextClicked => setCurrentPage (λ prev, Z.min (prev + 1) (totalFilteredPages s)) s
  | PageClicked i => setCurrentPage (λ _, Z.of_nat i + 1) s
  | LastPageClicked => setCurrentPage (λ _, totalFilteredPages s) s
  end.

(** An event seen through to the end: the handler's updates are rendered,
    the reset effect of that render runs, and what it set, if anything, is
    rendered in turn. *)
Definition dispatch (e : Event) (s : ViewState) : ViewState :=
  resetPageEffect s (handle e s).

(** Which events the rendered page can raise: the one fetch is
    outstanding while [loading]; the spinner shown meanwhile has no
    controls; the pagination bar is rendered when there is more than one
    page, with [Previous] and [Next] disabled at the ends, one button for
    each of the first five pages and a last-page button beyond five. *)
Definition enabled (s : ViewState) (e : Event) : bool :=
  match e with
  | Fetched _ => loading s
  | SearchChanged _ => negb (loading s)
  | CategoryClicked c => negb (loading s) && bool_decide (c ∈ categories s)
  | PreviousClicked =>
      negb (loading s) && (1 <? totalFilteredPages s)
      && negb (currentPage s =? 1)
  | NextClicked =>
      negb (loading s) && (1 <? totalFilteredPages s)
      && negb (currentPage s =? totalFilteredPages s)
  | PageClicked i =>
      negb (loading s) && (1 <? totalFilteredPages s)
      && (Z.of_nat i <? Z.min 5 (totalFilteredPages s))
  | LastPageClicked =>
      negb (loading s) && (1 <? totalFilteredPages s)
      && (5 <? totalFilteredPages s)
  end.

(** The states in which the page waits for an event: rendered, with the
    effects of the render run.  React runs the pending effects of a render
    before it hands the next event to a handler, so these are the states
    handlers are called in. *)
Inductive quiescent : ViewState → Prop :=
| quiet_mount : quiescent initialView
| quiet_dispatch s e :
    quiescent s → enabled s e = true → quiescent (dispatch e s).

(** The states the component is rendered with: the mount, and for each
    event the render of the handler's updates, before the reset effect has
    run, and the render after it. *)
Inductive rendered : ViewState → Prop :=
| render_mount : rendered initialView
| render_handled s e :
    quiescent s → enabled s e = true → rendered (handle e s)
| render_settled s e :
    quiescent s → enabled s e = true → rendered (dispatch e s).

(** The page number lies among the pages of the filtered view. *)
Definition page_in_range (s : ViewState) : Prop :=
  1 ≤ currentPage s ∧
  (1 ≤ totalFilteredPages s → currentPage s ≤ totalFilteredPages s).

(** [x] contains [q] when case is ignored. *)
Definition contains_ignoring_case (x q : string) : Prop :=
  ∃ pre post, toLowerCase x = pre +:+ toLowerCase q +:+ post.

(** A page-navigation event. *)
Definition navigates (e : Event) : bool :=
  match e with
  | PreviousClicked | NextClicked | PageClicked _ | LastPageClicked => true
  | _ => false
  end.
(** What the page shows when the page number is [p]. *)
Definition page_at (s : ViewState) (p : Z) : list Article :=
  paginatedArticles (setCurrentPage (λ _, p) s).

(** The page numbers from 1 to the page count. *)
Definition pageNumbers (s : ViewState) : list Z :=
  map (λ k, Z.of_nat k + 1) (seq 0 (Z.to_nat (totalFilteredPages s))).

(** Every fetched article carries the category [convertPSEOToArticle]
    gives it. *)
Definition converted (s : ViewState) : Prop :=
  Forall (λ a, category a = "Location Investment" ∧ source a = pseo) (pseoPages s).
End Derived.

(** *** A runtime for the worked examples

    The runtime restricted to ASCII text: lower-casing of the ASCII
    letters, the white space of the ASCII range, and dates read off an ISO
    timestamp.  It serves the worked examples only, whose strings are
    ASCII. *)

Definition ascii_toLowerCase (c : Ascii.ascii) : Ascii.ascii :=
  let n := Ascii.nat_of_ascii c in
  if bool_decide (65 ≤ n ≤ 90)%nat then Ascii.ascii_of_nat (n + 32) else c.

Fixpoint string_toLowerCase (s : string) : string :=
  match s with
  | EmptyString => EmptyString
  | String c s' => String (ascii_toLowerCase c) (string_toLowerCase s')
  end.

Definition monthNames : list (string * string) :=
  [("01", "January"); ("02", "February"); ("03", "March"); ("04", "April");
   ("05", "May"); ("06", "June"); ("07", "July"); ("08", "August");
   ("09", "September"); ("10", "October"); ("11", "November");
   ("12", "December")].

Definition iso_month_year (iso : string) : string :=
  let month := String.substring 5 2 iso in
  from_option snd "Invalid Date"
    (List.find (λ m, bool_decide (fst m = month)) monthNames)
    +:+ " " +:+ String.substring 0 4 iso.

Definition ascii_is_whitespace (c : Ascii.ascii) : bool :=
  bool_decide (Ascii.nat_of_ascii c ∈ [9; 10; 11; 12; 13; 32]%nat).

(** Each maximal run of white space becomes one hyphen; [in_run] tells
    that the previous character was white space. *)
Fixpoint ascii_hyphenate_from (in_run : bool) (s : string) : string :=
  match s with
  | EmptyString => EmptyString
  | String c s' =>
      if ascii_is_whitespace c
      then if in_run then ascii_hyphenate_from true s'
           else "-" +:+ ascii_hyphenate_from true s'
      else String c (ascii_hyphenate_from false s')
  end.

Definition ascii_runtime : Runtime :=
  {| toLowerCase := string_toLowerCase;
     replaceWhitespace := ascii_hyphenate_from false;
     toLocaleDateString := iso_month_year |}.

(** The page after a rejected fetch, and after the reader moved to page 2. *)
Definition static_only : ViewState :=
  dispatch (H := ascii_runtime) (Fetched (Rejected "TypeError: Failed to fetch"))
    initialView.

Definition second_page : ViewState :=
  dispatch (H := ascii_runtime) NextClicked static_only.

(** Two records of the remote collection with their image picks, and the
    page after they were fetched. *)
Definition sample_pages : list (Seo.Page * nat) :=
  [({| Seo.id := "s1"; Seo.state := "West Bengal"; Seo.city := "New Jalpaiguri";
       Seo.metaTitle := "Blueberry Farming Investment in New Jalpaiguri";
       Seo.metaDescription := "Returns and climate for blueberry farms near Siliguri.";
       Seo.createdAt := "2025-03-14T10:00:00Z" |}, 2%nat);
   ({| Seo.id := "1"; Seo.state := "Assam"; Seo.city := "Tezpur";
       Seo.metaTitle := "Blueberry Farming Investment in Tezpur";
       Seo.metaDescription := "Land and rainfall in the Brahmaputra valley.";
       Seo.createdAt := "2025-04-02T08:30:00Z" |}, 0%nat)].

Definition loaded : ViewState :=
  dispatch (H := ascii_runtime) (Fetched (Responded true (Pages sample_pages)))
    initialView.

End Insights.

(** * Facts about strings *)

Module StringFacts.

Lemma append_cons (a : Ascii.ascii) (s t : string) :
  String a s +:+ t = String a (s +:+ t).
Proof. reflexivity. Qed.

Lemma append_assoc (s1 s2 s3 : string) : (s1 +:+ s2) +:+ s3 = s1 +:+ s2 +:+ s3.
Proof.
  induction s1 as [|a s1 IH]; [done|]. rewrite !append_cons. by rewrite IH.
Qed.

Lemma length_append (s1 s2 : string) :
  String.length (s1 +:+ s2) = (String.length s1 + String.length s2)%nat.
Proof.
  induction s1 as [|a s1 IH]; [done|]. rewrite append_cons. simpl. by rewrite IH.
Qed.

(** Appending a non-empty string changes a string. *)
Lemma append_neq_self (s t : string) : t ≠ "" → s +:+ t ≠ s.
Proof.
  intros Ht Heq. apply (f_equal String.length) in Heq.
  rewrite length_append in Heq. destruct t; [done|]. simpl in Heq. lia.
Qed.

(** [String.prefix t s] tells that [s] starts with [t]. *)
Lemma prefix_spec (t s : string) :
  String.prefix t s = true ↔ ∃ post, s = t +:+ post.
Proof.
  revert t. induction s as [|b s IH]; intros [|a t]; simpl.
  - split; [by exists ""|done].
  - split; [done|]. by intros [post Hpost].
  - split; [|done]. intros _. by exists (String b s).
  - destruct (Ascii.ascii_dec a b) as [->|Hab].
    + rewrite IH. split; intros [post Hpost]; exists post.
      * rewrite append_cons. by rewrite <- Hpost.
      * rewrite append_cons in Hpost. by injection Hpost.
    + split; [done|]. intros [post Hpost].
      rewrite append_cons in Hpost. injection Hpost as -> _. done.
Qed.

(** Cancellation of a common suffix. *)
Lemma append_inj_l (t s1 s2 : string) : s1 +:+ t = s2 +:+ t → s1 = s2.
Proof.
  revert s2. induction s1 as [|a s1 IH]; intros [|b s2] Heq.
  - done.
  - change ("" +:+ t) with t in Heq.
    apply (f_equal String.length) in Heq. rewrite append_cons in Heq.
    simpl in Heq. rewrite length_append in Heq. lia.
  - change ("" +:+ t) with t in Heq.
    apply (f_equal String.length) in Heq. rewrite append_cons in Heq.
    simpl in Heq. rewrite length_append in Heq. lia.
  - rewrite !append_cons in Heq. injection Heq as -> Heq. f_equal. by apply IH.
Qed.

End StringFacts.

(** * Facts about the cart store *)

Module CartFacts.
Import Cart.

Section Generic.
Context {M : Money}.

(** ** Array methods on a cart *)

Section Lookup.
Variable i : string.

Lemma list_find_id_absent (l : list Product) :
  i ∉ map id l → list_find (λ item, id item = i) l = None.
Proof.
  induction l as [|x l IH]; simpl; [done|].
  intros Hn. apply not_elem_of_cons in Hn as [Hx Hl].
  destruct (decide (id x = i)); [congruence|].
  by rewrite IH.
Qed.

(** The first line item named [i] splits the cart around it. *)
Lemma list_find_id_present (l : list Product) :
  i ∈ map id l →
  ∃ l1 x l2, l = l1 ++ x :: l2 ∧ id x = i ∧ (i ∉ map id l1) ∧
             list_find (λ item, id item = i) l = Some (length l1, x).
Proof.
  induction l as [|y l IH]; simpl; [by intros ?%elem_of_nil|].
  intros Hin. destruct (decide (id y = i)) as [Hy|Hy].
  - exists [], y, l. repeat split; auto. apply not_elem_of_nil.
  - apply elem_of_cons in Hin as [Hin|Hin]; [congruence|].
    destruct (IH Hin) as (l1 & x & l2 & -> & Hx & Hl1 & Hf).
    exists (y :: l1), x, l2. rewrite Hf. repeat split; auto.
    simpl. apply not_elem_of_cons. split; auto.
Qed.

Lemma list_find_id_app (l1 l2 : list Product) x :
  id x = i → i ∉ map id l1 →
  list_find (λ item, id item = i) (l1 ++ x :: l2) = Some (length l1, x).
Proof.
  intros Hx. induction l1 as [|y l1 IH]; simpl; intros Hn.
  - by rewrite decide_True.
  - apply not_elem_of_cons in Hn as [Hy Hn].
    rewrite decide_False by congruence. by rewrite IH.
Qed.

Lemma filter_id_absent (l : list Product) :
  i ∉ map id l → filter (λ item, id item ≠ i) l = l.
Proof.
  induction l as [|x l IH]; simpl; [done|].
  intros Hn. apply not_elem_of_cons in Hn as [Hx Hl].
  rewrite filter_cons_True by congruence. by rewrite IH.
Qed.

Lemma filter_id_split (l1 l2 : list Product) x :
  id x = i → i ∉ map id l1 → i ∉ map id l2 →
  filter (λ item, id item ≠ i) (l1 ++ x :: l2) = l1 ++ l2.
Proof.
  intros Hx H1 H2. rewrite filter_app, filter_cons_False by tauto.
  by rewrite !filter_id_absent.
Qed.

Lemma map_merge_absent (q : Z) (l : list Product) :
  i ∉ map id l →
  map (λ c, if decide (i = id c) then with_quantity c (quantity c + q) else c) l = l.
Proof.
  induction l as [|x l IH]; simpl; [done|].
  intros Hn. apply not_elem_of_cons in Hn as [Hx Hl].
  destruct (decide (i = id x)); [congruence|]. by rewrite IH.
Qed.

Lemma map_merge_split (q : Z) (l1 l2 : list Product) x :
  id x = i → i ∉ map id l1 → i ∉ map id l2 →
  map (λ c, if decide (i = id c) then with_quantity c (quantity c + q) else c)
      (l1 ++ x :: l2)
  = l1 ++ with_quantity x (quantity x + q) :: l2.
Proof.
  intros Hx H1 H2. rewrite map_app. simpl.
  rewrite !map_merge_absent by done.
  destruct (decide (i = id x)); congruence.
Qed.
End Lookup.

Lemma splice_insert_at {A} (l1 l2 : list A) (x : A) :
  splice_insert (Z.of_nat (length l1)) x (l1 ++ l2) = l1 ++ x :: l2.
Proof.
  unfold splice_insert, relative_index. rewrite length_app.
  destruct (Z.ltb_spec (Z.of_nat (length l1)) 0) as [?|_]; [lia|].
  rewrite Z.min_l by lia. rewrite Nat2Z.id.
  by rewrite take_app_length, drop_app_length.
Qed.

(** With distinct identifiers, the split is around the only such item. *)
Lemma cart_split (i : string) (l : list Product) :
  NoDup (map id l) → i ∈ map id l →
  ∃ l1 x l2, l = l1 ++ x :: l2 ∧ id x = i ∧ (i ∉ map id l1) ∧ (i ∉ map id l2) ∧
             list_find (λ item, id item = i) l = Some (length l1, x).
Proof.
  intros Hnd Hin.
  destruct (list_find_id_present i l Hin) as (l1 & x & l2 & -> & Hx & Hl1 & Hf).
  exists l1, x, l2. repeat split; auto.
  rewrite map_app in Hnd. simpl in Hnd.
  apply NoDup_app in Hnd as (_ & _ & Hnd).
  apply NoDup_cons in Hnd as [Hnd _]. by rewrite <- Hx.
Qed.

Lemma in_cart_true i s : in_cart i s = true ↔ i ∈ map id (cartItems s).
Proof. unfold in_cart. apply bool_decide_eq_true. Qed.

Lemma in_cart_false i s : in_cart i s = false ↔ i ∉ map id (cartItems s).
Proof. unfold in_cart. apply bool_decide_eq_false. Qed.

Lemma sum_quantity_app l1 l2 :
  sum_quantity (l1 ++ l2) = sum_quantity l1 + sum_quantity l2.
Proof. induction l1; simpl; lia. Qed.

(** ** The operations, case by case *)

Lemma find_absent i s :
  in_cart i s = false → find (λ item, id item = i) (cartItems s) = None.
Proof.
  intros H%in_cart_false. unfold find. by rewrite list_find_id_absent.
Qed.

Lemma find_present i s :
  in_cart i s = true → is_Some (find (λ item, id item = i) (cartItems s)).
Proof.
  intros H%in_cart_true. unfold find.
  destruct (list_find_id_present i _ H) as (l1 & x & l2 & _ & _ & _ & ->).
  by eexists.
Qed.

Lemma onAdd_fresh product quantity s :
  in_cart (uniqueId product) s = false →
  onAdd product quantity s =
    let product' := assign_quantity_id product quantity (uniqueId product) in
    {| add_state :=
         {| showCart := showCart s;
            cartItems := cartItems s ++ [product'];
            totalPrice := totalPrice s + price product * quantity;
            totalQuantities := totalQuantities s + quantity;
            qty := qty s; indexColor := indexColor s; active := active s |};
       add_product := product';
       add_toast := toast_message (qty s) product |}.
Proof. intros H. unfold onAdd. by rewrite (find_absent _ _ H). Qed.

Lemma onAdd_merge product quantity s :
  in_cart (uniqueId product) s = true →
  onAdd product quantity s =
    {| add_state :=
         {| showCart := showCart s;
            cartItems :=
              map (λ c, if decide (uniqueId product = id c)
                        then with_quantity c (Cart.quantity c + quantity) else c)
                  (cartItems s);
            totalPrice := totalPrice s + price product * quantity;
            totalQuantities := totalQuantities s + quantity;
            qty := qty s; indexColor := indexColor s; active := active s |};
       add_product := product;
       add_toast := toast_message (qty s) product |}.
Proof.
  intros H. unfold onAdd. by destruct (find_present _ _ H) as [x ->].
Qed.

Lemma onRemove_absent product s :
  in_cart (id product) s = false → onRemove product s = s.
Proof. intros H. unfold onRemove. by rewrite (find_absent _ _ H). Qed.

Lemma toggle_absent i value s :
  in_cart i s = false → toggleCartItemQuanitity i value s = s.
Proof. intros H. unfold toggleCartItemQuanitity. by rewrite (find_absent _ _ H). Qed.

(** In a cart with distinct identifiers the three operations act on the one
    line item they name and leave the items around it in place. *)
Section Split.
Variables (s : State) (l1 l2 : list Product) (x : Product).
Hypothesis Hcart : cartItems s = l1 ++ x :: l2.
Hypothesis Hl1 : id x ∉ map id l1.
Hypothesis Hl2 : id x ∉ map id l2.

Lemma split_list_find :
  list_find (λ item, id item = id x) (cartItems s) = Some (length l1, x).
Proof. rewrite Hcart. by apply list_find_id_app. Qed.

Lemma onAdd_split product quantity :
  uniqueId product = id x →
  cartItems (add_state (onAdd product quantity s))
  = l1 ++ with_quantity x (Cart.quantity x + quantity) :: l2.
Proof.
  intros Hk. rewrite onAdd_merge.
  - simpl. rewrite Hcart, Hk. by apply map_merge_split.
  - apply in_cart_true. rewrite Hk, Hcart, map_app. simpl. set_solver.
Qed.

Lemma onRemove_split product :
  id product = id x →
  onRemove product s =
    {| showCart := showCart s; cartItems := l1 ++ l2;
       totalPrice := totalPrice s - price x * quantity x;
       totalQuantities := totalQuantities s - quantity x;
       qty := qty s; indexColor := indexColor s; active := active s |}.
Proof.
  intros Hk. unfold onRemove, find. rewrite Hk, split_list_find. simpl.
  unfold setCartItems. simpl. rewrite Hcart.
  by rewrite (filter_id_split (id x)).
Qed.

Lemma toggle_inc_split :
  toggleCartItemQuanitity (id x) inc s =
    {| showCart := showCart s;
       cartItems := l1 ++ with_quantity x (quantity x + 1) :: l2;
       totalPrice := totalPrice s + price x;
       totalQuantities := totalQuantities s + 1;
       qty := qty s; indexColor := indexColor s; active := active s |}.
Proof.
  unfold toggleCartItemQuanitity, find, findIndex.
  rewrite split_list_find. simpl. rewrite Hcart.
  rewrite (filter_id_split (id x)) by done.
  unfold setTotalQuantities, setTotalPrice, setCartItems. simpl.
  by rewrite splice_insert_at.
Qed.

Lemma toggle_dec_split :
  toggleCartItemQuanitity (id x) dec s =
    if decide (quantity x > 1) then
      {| showCart := showCart s;
         cartItems := l1 ++ with_quantity x (quantity x - 1) :: l2;
         totalPrice := totalPrice s - price x;
         totalQuantities := totalQuantities s - 1;
         qty := qty s; indexColor := indexColor s; active := active s |}
    else s.
Proof.
  unfold toggleCartItemQuanitity, find, findIndex.
  rewrite split_list_find. simpl. rewrite Hcart.
  rewrite (filter_id_split (id x)) by done.
  destruct (decide (quantity x > 1)); [|done].
  unfold setTotalQuantities, setTotalPrice, setCartItems. simpl.
  by rewrite splice_insert_at.
Qed.
End Split.

(** ** Invariants of the store *)

Lemma distinct_split i s :
  distinct_ids s → in_cart i s = true →
  ∃ l1 x l2, cartItems s = l1 ++ x :: l2 ∧ id x = i ∧
             (id x ∉ map id l1) ∧ (id x ∉ map id l2).
Proof.
  intros Hd Hin%in_cart_true.
  destruct (cart_split i _ Hd Hin) as (l1 & x & l2 & ? & <- & ? & ? & _).
  by exists l1, x, l2.
Qed.

Lemma map_id_with_quantity l1 l2 x q :
  map id (l1 ++ with_quantity x q :: l2) = map id (l1 ++ x :: l2).
Proof. by rewrite !map_app. Qed.

Lemma NoDup_map_id_remove (l1 l2 : list Product) x :
  NoDup (map id (l1 ++ x :: l2)) → NoDup (map id (l1 ++ l2)).
Proof.
  rewrite !map_app. simpl. rewrite !NoDup_app, NoDup_cons.
  intros (? & Hd & _ & ?). repeat split; auto.
  intros y Hy Hy2. apply (Hd y Hy). by right.
Qed.

Lemma step_distinct_ids s o : distinct_ids s → distinct_ids (step s o).
Proof.
  unfold distinct_ids. intros Hd. destruct o as [product quantity|product|i value]; simpl.
  - destruct (in_cart (uniqueId product) s) eqn:Hin.
    + destruct (distinct_split _ _ Hd Hin) as (l1 & x & l2 & Hc & Hx & H1 & H2).
      rewrite (onAdd_split s l1 l2 x Hc H1 H2) by done.
      rewrite map_id_with_quantity. by rewrite <- Hc.
    + rewrite onAdd_fresh by done. simpl. rewrite map_app. simpl.
      apply NoDup_app. repeat split; auto.
      * intros y Hy ->%list_elem_of_singleton. by apply in_cart_false in Hin.
      * apply NoDup_singleton.
  - destruct (in_cart (id product) s) eqn:Hin.
    + destruct (distinct_split _ _ Hd Hin) as (l1 & x & l2 & Hc & Hx & H1 & H2).
      rewrite (onRemove_split s l1 l2 x Hc H1 H2) by done. simpl.
      apply (NoDup_map_id_remove l1 l2 x). by rewrite <- Hc.
    + by rewrite onRemove_absent.
  - destruct (in_cart i s) eqn:Hin.
    + destruct (distinct_split _ _ Hd Hin) as (l1 & x & l2 & Hc & <- & H1 & H2).
      destruct value.
      * rewrite (toggle_inc_split s l1 l2 x Hc H1 H2). simpl.
        rewrite map_id_with_quantity. by rewrite <- Hc.
      * rewrite (toggle_dec_split s l1 l2 x Hc H1 H2).
        case_decide; [|done]. simpl.
        rewrite map_id_with_quantity. by rewrite <- Hc.
    + by rewrite toggle_absent.
Qed.

Lemma sum_quantity_split l1 l2 x :
  sum_quantity (l1 ++ x :: l2) = sum_quantity l1 + quantity x + sum_quantity l2.
Proof. rewrite sum_quantity_app. simpl. lia. Qed.

Lemma run_distinct_ids ops : ∀ s, distinct_ids s → distinct_ids (run s ops).
Proof.
  induction ops as [|o ops IH]; intros s Hd; simpl; [done|].
  apply IH. by apply step_distinct_ids.
Qed.

Lemma initial_distinct_ids : distinct_ids initial.
Proof. apply NoDup_nil_2. Qed.

Lemma initial_consistent : consistent initial.
Proof. by split. Qed.

(** Every add raises the totals by what it adds, merged or not. *)
Lemma onAdd_totals product quantity s :
  totalPrice (add_state (onAdd product quantity s))
    = (totalPrice s + price product * quantity)%money ∧
  totalQuantities (add_state (onAdd product quantity s))
    = totalQuantities s + quantity.
Proof.
  destruct (in_cart (uniqueId product) s) eqn:Hin.
  - by rewrite onAdd_merge.
  - by rewrite onAdd_fresh.
Qed.

Lemma run_adds_quantity adds :
  ∀ s, totalQuantities (run s (as_ops adds)) = totalQuantities s + added_quantity adds.
Proof.
  induction adds as [|[product quantity] adds IH]; intros s; simpl; [lia|].
  rewrite IH. destruct (onAdd_totals product quantity s) as [_ ->]. lia.
Qed.

(** The price total after a run of adds is the running sum of what each
    add quotes, taken in the order of the adds. *)
Lemma run_adds_price adds :
  ∀ s, totalPrice (run s (as_ops adds))
       = foldl (λ acc a, (acc + price (fst a) * snd a)%money) (totalPrice s) adds.
Proof.
  induction adds as [|[product quantity] adds IH]; intros s; simpl; [done|].
  rewrite IH. by destruct (onAdd_totals product quantity s) as [-> _].
Qed.

(** The quantity total follows the line items through every operation,
    whatever the arithmetic of the amounts. *)
Lemma step_quantity_total s o :
  distinct_ids s → totalQuantities s = sum_quantity (cartItems s) →
  totalQuantities (step s o) = sum_quantity (cartItems (step s o)).
Proof.
  intros Hd HQ. destruct o as [product quantity|product|i value]; simpl.
  - destruct (in_cart (uniqueId product) s) eqn:Hin.
    + destruct (distinct_split _ _ Hd Hin) as (l1 & x & l2 & Hc & Hx & H1 & H2).
      rewrite (onAdd_split s l1 l2 x Hc H1 H2) by done.
      rewrite onAdd_merge by done. simpl.
      rewrite sum_quantity_split, HQ, Hc, sum_quantity_split. simpl. lia.
    + rewrite onAdd_fresh by done. simpl. rewrite sum_quantity_app. simpl. lia.
  - destruct (in_cart (id product) s) eqn:Hin.
    + destruct (distinct_split _ _ Hd Hin) as (l1 & x & l2 & Hc & Hx & H1 & H2).
      rewrite (onRemove_split s l1 l2 x Hc H1 H2) by done. simpl.
      rewrite sum_quantity_app, HQ, Hc, sum_quantity_split. lia.
    + by rewrite onRemove_absent.
  - destruct (in_cart i s) eqn:Hin.
    + destruct (distinct_split _ _ Hd Hin) as (l1 & x & l2 & Hc & <- & H1 & H2).
      destruct value.
      * rewrite (toggle_inc_split s l1 l2 x Hc H1 H2). simpl.
        rewrite sum_quantity_split, HQ, Hc, sum_quantity_split. simpl. lia.
      * rewrite (toggle_dec_split s l1 l2 x Hc H1 H2).
        case_decide; [|done]. simpl.
        rewrite sum_quantity_split, HQ, Hc, sum_quantity_split. simpl. lia.
    + by rewrite toggle_absent.
Qed.

Lemma run_quantity_total ops :
  ∀ s, distinct_ids s → totalQuantities s = sum_quantity (cartItems s) →
       totalQuantities (run s ops) = sum_quantity (cartItems (run s ops)).
Proof.
  induction ops as [|o ops IH]; intros s Hd HQ; simpl; [done|].
  apply IH; auto using step_distinct_ids, step_quantity_total.
Qed.

(** ** Unknown identifiers *)

(** C3.  When no line item carries the identifier given, [onRemove] and
    [toggleCartItemQuanitity], in either direction, return the world they
    were called in: the line items, [totalPrice], [totalQuantities] and
    every other state cell are unchanged, no toast is emitted and no
    product object is written. *)
Theorem unknown_id_is_noop (w : World) :
  (∀ product, in_cart (id (objects w product)) (context w) = false →
              call_onRemove product w = w) ∧
  (∀ i value, in_cart i (context w) = false →
              call_toggleCartItemQuanitity i value w = w).
Proof.
  split.
  - intros product H. unfold call_onRemove. rewrite onRemove_absent by done.
    by destruct w.
  - intros i value H. unfold call_toggleCartItemQuanitity.
    rewrite toggle_absent by done. by destruct w.
Qed.

(** ** Adding under a key the cart already holds *)

Lemma lookup_map {A B} (f : A → B) (l : list A) (j : nat) :
  map f l !! j = f <$> l !! j.
Proof. revert j. induction l as [|x l IH]; intros [|j]; simpl; auto. Qed.

(** A merging add, position by position. *)
Lemma onAdd_merge_lookup (product : Product) (quantity : Z) (s : State)
    (j : nat) (c : Product) :
  in_cart (uniqueId product) s = true →
  cartItems s !! j = Some c →
  cartItems (add_state (onAdd product quantity s)) !! j
  = Some (if decide (uniqueId product = id c)
          then with_quantity c (Cart.quantity c + quantity) else c).
Proof.
  intros Hin Hj. rewrite onAdd_merge by done. simpl.
  by rewrite lookup_map, Hj.
Qed.

Lemma onAdd_merge_length (product : Product) (quantity : Z) (s : State) :
  in_cart (uniqueId product) s = true →
  length (cartItems (add_state (onAdd product quantity s))) = length (cartItems s).
Proof. intros Hin. rewrite onAdd_merge by done. apply length_map. Qed.

(** C9.  When the composite key of an add already names a line item, the
    cart keeps its length and every position keeps its line item: one
    whose identifier is the key keeps its identifier, name, price, weight
    and image, whatever the product argument says, and has the quantity
    added to its own; every other line item is the same in all fields. *)
Theorem add_existing_key_frame (product : Product) (quantity : Z) (s : State) :
  in_cart (uniqueId product) s = true →
  length (cartItems (add_state (onAdd product quantity s))) = length (cartItems s) ∧
  ∀ (j : nat) (c : Product),
    cartItems s !! j = Some c →
    ∃ c', cartItems (add_state (onAdd product quantity s)) !! j = Some c' ∧
          id c' = id c ∧ name c' = name c ∧ price c' = price c ∧
          weight c' = weight c ∧ image c' = image c ∧
          (id c = uniqueId product → Cart.quantity c' = Cart.quantity c + quantity) ∧
          (id c ≠ uniqueId product → c' = c).
Proof.
  intros Hin. split; [by apply onAdd_merge_length|].
  intros j c Hj. rewrite (onAdd_merge_lookup _ _ _ j c) by done.
  destruct (decide (uniqueId product = id c)) as [Hk|Hk].
  - eexists. split; [done|]. simpl. repeat split; auto. congruence.
  - eexists. split; [done|]. repeat split; auto. congruence.
Qed.

Lemma onAdd_ids product quantity s :
  map id (cartItems (add_state (onAdd product quantity s)))
  = map id (cartItems s)
    ++ (if in_cart (uniqueId product) s then [] else [uniqueId product]).
Proof.
  destruct (in_cart (uniqueId product) s) eqn:Hin.
  - rewrite onAdd_merge by done. simpl. rewrite map_map, app_nil_r.
    apply map_ext. intros c. by case_decide.
  - rewrite onAdd_fresh by done. simpl. by rewrite map_app.
Qed.

Lemma filter_id_eq_absent k (l : list Product) :
  k ∉ map id l → filter (λ item, id item = k) l = [].
Proof.
  induction l as [|x l IH]; simpl; [done|].
  intros Hn. apply not_elem_of_cons in Hn as [Hx Hl].
  rewrite filter_cons_False by congruence. auto.
Qed.

Lemma quantity_under_app k l1 l2 :
  quantity_under k (l1 ++ l2) = quantity_under k l1 + quantity_under k l2.
Proof. unfold quantity_under. by rewrite filter_app, sum_quantity_app. Qed.

Lemma quantity_under_cons k x l :
  quantity_under k (x :: l)
  = (if decide (id x = k) then quantity x else 0) + quantity_under k l.
Proof.
  unfold quantity_under. rewrite filter_cons. by case_decide.
Qed.

Lemma quantity_under_absent k l : k ∉ map id l → quantity_under k l = 0.
Proof. intros H. unfold quantity_under. by rewrite filter_id_eq_absent. Qed.

Lemma quantity_under_elem l x :
  NoDup (map id l) → x ∈ l → quantity_under (id x) l = quantity x.
Proof.
  intros Hnd (l1 & l2 & ->)%list_elem_of_split.
  rewrite map_app in Hnd. simpl in Hnd.
  apply NoDup_app in Hnd as (_ & H1 & [H2 _]%NoDup_cons).
  rewrite quantity_under_app, quantity_under_cons, decide_True by done.
  rewrite !quantity_under_absent; [lia|done|].
  intros Hin. apply (H1 _ Hin). by left.
Qed.

Lemma onAdd_quantity_under k product quantity s :
  distinct_ids s →
  quantity_under k (cartItems (add_state (onAdd product quantity s)))
  = quantity_under k (cartItems s)
    + (if decide (uniqueId product = k) then quantity else 0).
Proof.
  intros Hd. destruct (in_cart (uniqueId product) s) eqn:Hin.
  - destruct (distinct_split _ _ Hd Hin) as (l1 & x & l2 & Hc & Hx & H1 & H2).
    rewrite (onAdd_split s l1 l2 x Hc H1 H2) by done. rewrite Hc.
    rewrite !quantity_under_app, !quantity_under_cons. simpl. rewrite Hx.
    case_decide; lia.
  - rewrite onAdd_fresh by done. simpl.
    rewrite quantity_under_app, quantity_under_cons. simpl.
    change (quantity_under k []) with 0. case_decide; lia.
Qed.

Lemma run_adds_quantity_under k adds :
  ∀ s, distinct_ids s →
       quantity_under k (cartItems (run s (as_ops adds)))
       = quantity_under k (cartItems s) + added_under k adds.
Proof.
  induction adds as [|[product quantity] adds IH]; intros s Hd; simpl; [lia|].
  rewrite IH by apply (step_distinct_ids s (Add product quantity) Hd).
  rewrite onAdd_quantity_under by done. case_decide; lia.
Qed.

(** ** Quantities of line items *)

Lemma find_Some {A} (P : A → Prop) `{∀ x, Decision (P x)} (l : list A) x :
  find P l = Some x → x ∈ l ∧ P x.
Proof.
  unfold find. destruct (list_find P l) as [[j y]|] eqn:Hf; [|done].
  intros [= <-]. apply list_find_Some in Hf as (Hj & HP & _).
  split; [|done]. by eapply list_elem_of_lookup_2.
Qed.

Lemma Forall_splice_insert {A} (P : A → Prop) (k : Z) (x : A) (l : list A) :
  P x → Forall P l → Forall P (splice_insert k x l).
Proof.
  intros Hx Hl. unfold splice_insert. apply Forall_app. split.
  - by apply Forall_take.
  - constructor; [done|]. by apply Forall_drop.
Qed.

Lemma Forall_filter_id {A} (P Q : A → Prop) `{∀ x, Decision (Q x)} (l : list A) :
  Forall P l → Forall P (filter Q l).
Proof.
  rewrite !Forall_forall. intros Hl x [_ Hx]%list_elem_of_filter. auto.
Qed.

Lemma step_positive_quantities s o :
  positive_quantities s →
  (∀ product quantity, o = Add product quantity → 1 ≤ quantity) →
  positive_quantities (step s o).
Proof.
  unfold positive_quantities. intros Hpos Hq.
  destruct o as [product quantity|product|i value]; simpl.
  - specialize (Hq product quantity eq_refl).
    destruct (in_cart (uniqueId product) s) eqn:Hin.
    + rewrite onAdd_merge by done. simpl.
      apply Forall_forall. intros c' Hc'%list_elem_of_In.
      apply List.in_map_iff in Hc' as (c & <- & Hc%list_elem_of_In).
      rewrite Forall_forall in Hpos. specialize (Hpos c Hc).
      case_decide; simpl; lia.
    + rewrite onAdd_fresh by done. simpl.
      apply Forall_app. split; [done|]. by constructor.
  - unfold onRemove.
    destruct (find _ (cartItems s)) as [foundProduct|]; [|done]. simpl.
    by apply Forall_filter_id.
  - unfold toggleCartItemQuanitity.
    destruct (find _ (cartItems s)) as [foundProduct|] eqn:Hfind; [|done].
    apply find_Some in Hfind as [Hfound _].
    rewrite Forall_forall in Hpos. pose proof (Hpos _ Hfound) as Hone.
    rewrite <- Forall_forall in Hpos.
    destruct value; [|case_decide; [|done]]; simpl;
      (apply Forall_splice_insert; [simpl; lia | by apply Forall_filter_id]).
Qed.

Lemma reachable_distinct_ids s : reachable s → distinct_ids s.
Proof.
  induction 1 as [|s product quantity _ IH _|s product _ IH|s i value _ IH
                  |s _ IH|s _ IH].
  - apply initial_distinct_ids.
  - apply (step_distinct_ids s (Add product quantity) IH).
  - apply (step_distinct_ids s (Remove product) IH).
  - apply (step_distinct_ids s (Toggle i value) IH).
  - done.
  - done.
Qed.

Lemma reachable_positive_quantities s : reachable s → positive_quantities s.
Proof.
  induction 1 as [|s product quantity _ IH Hq|s product _ IH|s i value _ IH
                  |s _ IH|s _ IH].
  - constructor.
  - apply (step_positive_quantities s (Add product quantity) IH).
    by intros ? ? [= <- <-].
  - by apply (step_positive_quantities s (Remove product) IH).
  - by apply (step_positive_quantities s (Toggle i value) IH).
  - done.
  - done.
Qed.

(** An adjustment keeps every line item in its place. *)
Lemma toggle_ids i value s :
  distinct_ids s →
  map id (cartItems (toggleCartItemQuanitity i value s)) = map id (cartItems s).
Proof.
  intros Hd. destruct (in_cart i s) eqn:Hin.
  - destruct (distinct_split _ _ Hd Hin) as (l1 & x & l2 & Hc & <- & H1 & H2).
    destruct value.
    + rewrite (toggle_inc_split s l1 l2 x Hc H1 H2). simpl.
      rewrite map_id_with_quantity. by rewrite Hc.
    + rewrite (toggle_dec_split s l1 l2 x Hc H1 H2).
      case_decide; [|done]. simpl.
      rewrite map_id_with_quantity. by rewrite Hc.
  - by rewrite toggle_absent.
Qed.

(** C4.  Every line item of a reachable cart has quantity at least 1, and
    each cart operation keeps it so, adds being of at least one unit.
    Decrementing a line item of quantity 1 returns the state unchanged, so
    its quantity, [totalPrice] and [totalQuantities] stay.  A decrement
    never takes a line item out of the cart, and no operation other than
    [onRemove] does. *)
Theorem quantities_stay_positive :
  (∀ s, reachable s → positive_quantities s) ∧
  (∀ s o, positive_quantities s →
          (∀ product quantity, o = Add product quantity → 1 ≤ quantity) →
          positive_quantities (step s o)) ∧
  (∀ s i x, find (λ item, id item = i) (cartItems s) = Some x →
            quantity x = 1 → toggleCartItemQuanitity i dec s = s) ∧
  (∀ s i, reachable s →
          map id (cartItems (toggleCartItemQuanitity i dec s)) = map id (cartItems s)) ∧
  (∀ s o k, reachable s → (∀ product, o ≠ Remove product) →
            in_cart k s = true → in_cart k (step s o) = true).
Proof.
  split; [exact reachable_positive_quantities|].
  split; [exact step_positive_quantities|].
  split; [|split].
  - intros s i x Hfind Hone. unfold toggleCartItemQuanitity.
    rewrite Hfind. rewrite decide_False; [done|lia].
  - intros s i Hr. by apply toggle_ids, reachable_distinct_ids.
  - intros s o k Hr Ho Hk. apply in_cart_true. apply in_cart_true in Hk.
    destruct o as [product quantity|product|i value]; simpl.
    + rewrite onAdd_ids. apply elem_of_app. by left.
    + by destruct (Ho product).
    + by rewrite toggle_ids by by apply reachable_distinct_ids.
Qed.

(** ** The caller's product object *)

Lemma uniqueId_assigned p q :
  uniqueId (assign_quantity_id p q (uniqueId p))
  = id p +:+ "-" +:+ weight p +:+ "-" +:+ weight p.
Proof. unfold uniqueId. simpl. by rewrite StringFacts.append_assoc. Qed.

Lemma uniqueId_assigned_neq p q :
  uniqueId (assign_quantity_id p q (uniqueId p)) ≠ uniqueId p.
Proof.
  unfold uniqueId at 1. simpl. by apply StringFacts.append_neq_self.
Qed.

(** C10, amended.  When the composite key of the product object is not in
    the cart, [onAdd] writes the key into the object's [id] and the
    quantity argument into its [quantity], leaves its other fields, and
    appends a copy of the object to the cart.  The key a second add of
    that object computes is [id-weight-weight], which differs from the
    first key, so the line item of the first add stays as it was; and when
    no line item of the cart carried [id-weight-weight] before the two
    adds, the second add appends a second line item under that key. *)
Theorem add_rewrites_caller_object (w : World) (product : ref)
    (quantity quantity2 : Z) :
  let p := objects w product in
  let w1 := call_onAdd product quantity w in
  let p1 := objects w1 product in
  let w2 := call_onAdd product quantity2 w1 in
  in_cart (uniqueId p) (context w) = false →
  (id p1 = id p +:+ "-" +:+ weight p ∧ Cart.quantity p1 = quantity ∧
   name p1 = name p ∧ price p1 = price p ∧ weight p1 = weight p ∧
   image p1 = image p) ∧
  cartItems (context w1) = cartItems (context w) ++ [p1] ∧
  uniqueId p1 = id p +:+ "-" +:+ weight p +:+ "-" +:+ weight p ∧
  uniqueId p1 ≠ uniqueId p ∧
  cartItems (context w2) !! length (cartItems (context w)) = Some p1 ∧
  (in_cart (uniqueId p1) (context w) = false →
   cartItems (context w2)
   = cartItems (context w) ++ [p1; assign_quantity_id p1 quantity2 (uniqueId p1)]).
Proof.
  intros p w1 p1 w2 Hfresh.
  assert (p1 = assign_quantity_id p quantity (uniqueId p)) as Hp1.
  { unfold p1, w1, call_onAdd. simpl. rewrite fn_lookup_insert.
    by rewrite onAdd_fresh. }
  assert (cartItems (context w1) = cartItems (context w) ++ [p1]) as Hw1.
  { rewrite Hp1. unfold w1, call_onAdd. simpl. by rewrite onAdd_fresh. }
  assert (uniqueId p1 ≠ id p1) as Hne.
  { rewrite Hp1. apply uniqueId_assigned_neq. }
  assert (in_cart (uniqueId p1) (context w1) = in_cart (uniqueId p1) (context w))
    as Hsame.
  { unfold in_cart. rewrite Hw1, map_app. simpl.
    apply bool_decide_ext. rewrite elem_of_app, list_elem_of_singleton. tauto. }
  split; [by rewrite Hp1|]. split; [done|].
  split; [rewrite Hp1; apply uniqueId_assigned|].
  split; [rewrite Hp1; apply uniqueId_assigned_neq|].
  change (context w2) with (add_state (onAdd p1 quantity2 (context w1))).
  set (s1 := context w1) in *. clearbody s1 p1. clear w1 w2.
  split.
  - destruct (in_cart (uniqueId p1) s1) eqn:Hin.
    + rewrite onAdd_merge by done. simpl. rewrite lookup_map, Hw1.
      rewrite lookup_app_r, Nat.sub_diag by done. simpl.
      by rewrite decide_False.
    + rewrite onAdd_fresh by done. simpl. rewrite Hw1, <- app_assoc.
      by rewrite lookup_app_r, Nat.sub_diag.
  - intros Hfresh2. rewrite onAdd_fresh by by rewrite Hsame.
    simpl. by rewrite Hw1, <- app_assoc.
Qed.

(** ** The confirmation toast *)

Lemma onAdd_toast product quantity s :
  add_toast (onAdd product quantity s) = toast_message (qty s) product.
Proof.
  destruct (in_cart (uniqueId product) s) eqn:Hin.
  - by rewrite onAdd_merge.
  - by rewrite onAdd_fresh.
Qed.

Lemma onAdd_qty product quantity s :
  qty (add_state (onAdd product quantity s)) = qty s.
Proof.
  destruct (in_cart (uniqueId product) s) eqn:Hin.
  - by rewrite onAdd_merge.
  - by rewrite onAdd_fresh.
Qed.

Lemma toast_message_inj product : Inj (=) (=) (λ n, toast_message n product).
Proof.
  intros n m H. unfold toast_message in H.
  apply (inj pretty). eapply StringFacts.append_inj_l, H.
Qed.

(** C5.  Every call of [onAdd] emits one toast.  Its text is the quantity
    selector [qty] of the render, then the product's name, then its weight
    in brackets; the quantity argument does not occur in it.  [onAdd]
    leaves [qty] as it was, so whenever [qty] differs from the quantity
    added the number shown differs from the number added. *)
Theorem toast_reports_selector (product : Product) (quantity : Z) (s : State) :
  (∀ (w : World) (r : ref),
     context w = s → objects w r = product →
     toasts (call_onAdd r quantity w)
     = toasts w ++ [add_toast (onAdd product quantity s)]) ∧
  add_toast (onAdd product quantity s)
    = pretty (qty s) +:+ " " +:+ name product +:+ " (" +:+ weight product
        +:+ ") added to the cart." ∧
  qty (add_state (onAdd product quantity s)) = qty s ∧
  (qty s ≠ quantity →
     pretty (qty s) ≠ pretty quantity ∧
     add_toast (onAdd product quantity s) ≠ toast_message quantity product).
Proof.
  split; [by intros w r <- <-|].
  rewrite onAdd_toast, onAdd_qty. do 2 (split; [done|]). intros Hne. split.
  - by intros Heq%(inj pretty).
  - by intros Heq%toast_message_inj.
Qed.

End Generic.

(** ** Worked examples of the facts above, in integer amounts *)

#[local] Existing Instance integer_money.

Lemma unknown_id_is_noop_witness :
  call_onRemove 1%nat preloaded = preloaded ∧
  call_toggleCartItemQuanitity "p1-500g" dec preloaded = preloaded.
Proof.
  destruct (unknown_id_is_noop preloaded) as [Hremove Htoggle].
  split; [apply Hremove | apply Htoggle]; reflexivity.
Defined.

Lemma add_existing_key_frame_witness :
  length (cartItems (add_state (onAdd (punnet 250) 3 (context stocked)))) = 2%nat ∧
  ∀ (j : nat) (c : Product),
    cartItems (context stocked) !! j = Some c →
    ∃ c', cartItems (add_state (onAdd (punnet 250) 3 (context stocked))) !! j = Some c' ∧
          id c' = id c ∧ name c' = name c ∧ price c' = price c ∧
          weight c' = weight c ∧ image c' = image c ∧
          (id c = uniqueId (punnet 250) → Cart.quantity c' = Cart.quantity c + 3) ∧
          (id c ≠ uniqueId (punnet 250) → c' = c).
Proof.
  apply (add_existing_key_frame (punnet 250) 3 (context stocked)). reflexivity.
Defined.

Lemma quantities_stay_positive_witness :
  positive_quantities (context stocked) ∧
  positive_quantities (step (context stocked) (Toggle "p1-500g" dec)) ∧
  toggleCartItemQuanitity "p1-500g-500g" dec (context stocked) = context stocked ∧
  map id (cartItems (toggleCartItemQuanitity "p1-500g" dec (context stocked)))
    = map id (cartItems (context stocked)) ∧
  in_cart "p1-500g" (step (context stocked) (Toggle "p1-500g" dec)) = true.
Proof.
  destruct (quantities_stay_positive (M := integer_money))
    as (Hreach & Hstep & Hone & Hids & Hkeep).
  assert (reachable (context stocked)) as Hr.
  { change (context stocked)
      with (add_state (onAdd (objects preloaded 1%nat) 2 (context preloaded))).
    apply reach_onAdd; [|lia].
    change (context preloaded) with (add_state (onAdd (shelf 0%nat) 1 initial)).
    apply reach_onAdd; [apply reach_initial|lia]. }
  split; [apply Hreach, Hr|].
  split; [apply Hstep; [apply Hreach, Hr|discriminate]|].
  split; [eapply Hone; reflexivity|].
  split; [apply Hids, Hr|].
  apply Hkeep; [apply Hr|discriminate|reflexivity].
Defined.

Lemma add_rewrites_caller_object_witness :
  objects (call_onAdd 1%nat 2 (mount shelf)) 1%nat
    = assign_quantity_id (punnet 100) 2 "p1-500g" ∧
  map (λ c, (id c, Cart.quantity c))
      (cartItems (context (call_onAdd 1%nat 3 (call_onAdd 1%nat 2 (mount shelf)))))
    = [("p1-500g", 2); ("p1-500g-500g", 3)].
Proof.
  destruct (add_rewrites_caller_object (mount shelf) 1%nat 2 3)
    as (_ & _ & _ & _ & _ & Hsecond); [reflexivity|].
  split; [reflexivity|]. rewrite Hsecond; reflexivity.
Defined.

(** C10 as first stated fails in a cart that already holds a line item
    under [id-weight-weight]: the first add of object 1 appends [p1-500g],
    the second add of the same object computes [p1-500g-500g], finds the
    older line item of that name and raises its quantity; no line item is
    inserted. *)
Lemma second_add_merges_into_older_item :
  in_cart (uniqueId (objects preloaded 1%nat)) (context preloaded) = false ∧
  map (λ c, (id c, Cart.quantity c))
      (cartItems (context (call_onAdd 1%nat 3 (call_onAdd 1%nat 2 preloaded))))
    = [("p1-500g-500g", 4); ("p1-500g", 2)] ∧
  ¬ second_add_inserts preloaded 1%nat 2 3.
Proof.
  do 2 (split; [reflexivity|]). intros H. vm_compute in H. discriminate H.
Qed.

Lemma toast_reports_selector_witness :
  add_toast (onAdd (punnet 100) 3 initial)
    = "1 Blueberries (500g) added to the cart." ∧
  add_toast (onAdd (punnet 100) 3 initial) ≠ toast_message 3 (punnet 100).
Proof.
  destruct (toast_reports_selector (punnet 100) 3 initial) as (_ & Ht & _ & Hne).
  split; [exact Ht|]. apply Hne. simpl. lia.
Defined.

(** ** Adding under a key the cart already holds: totals *)

(** C2.  An add whose composite key already names a line item leaves the
    number of line items and their identifiers as they were, and raises the
    quantity of the line item under that key by the quantity added.  After
    any sequence of adds from the empty cart no two line items share a
    key, and each line item's quantity is the sum of the quantities added
    under its key.  From the empty cart, adding product [p1] of weight
    [500g] at price 100 with quantity 2 gives the single line item
    [p1-500g] with quantity 2 and totals 200 and 2; adding the same product
    and weight with quantity 3, that is a product whose [id] is [p1] again,
    gives one line item with quantity 5 and totals 500 and 5.  The example
    comes out the same in integer amounts and in doubles. *)
Theorem add_existing_key_merges {M : Money} (product : @Product M) (quantity : Z)
    (s : @State M) :
  in_cart (uniqueId product) s = true →
  (length (cartItems (add_state (onAdd product quantity s))) = length (cartItems s) ∧
   map id (cartItems (add_state (onAdd product quantity s))) = map id (cartItems s) ∧
   ∀ (j : nat) (c : @Product M),
     cartItems s !! j = Some c → id c = uniqueId product →
     Cart.quantity <$> cartItems (add_state (onAdd product quantity s)) !! j
     = Some (Cart.quantity c + quantity)) ∧
  (∀ adds : list (@Product M * Z),
     distinct_ids (run initial (as_ops adds)) ∧
     ∀ item, item ∈ cartItems (run initial (as_ops adds)) →
             Cart.quantity item = added_under (id item) adds) ∧
  (∀ (n img : string) (q0 : Z),
     let p := @mkProduct integer_money "p1" n 100 q0 "500g" img in
     let s1 := add_state (onAdd p 2 initial) in
     let s2 := add_state (onAdd p 3 s1) in
     cartItems s1 = [assign_quantity_id p 2 "p1-500g"] ∧
     totalPrice s1 = 200 ∧ totalQuantities s1 = 2 ∧
     cartItems s2 = [assign_quantity_id p 5 "p1-500g"] ∧
     totalPrice s2 = 500 ∧ totalQuantities s2 = 5) ∧
  (∀ (n img : string) (q0 : Z),
     let p := @mkProduct double_money "p1" n (double_of_Z 100) q0 "500g" img in
     let s1 := add_state (onAdd p 2 initial) in
     let s2 := add_state (onAdd p 3 s1) in
     cartItems s1 = [assign_quantity_id p 2 "p1-500g"] ∧
     totalPrice s1 = double_of_Z 200 ∧ totalQuantities s1 = 2 ∧
     cartItems s2 = [assign_quantity_id p 5 "p1-500g"] ∧
     totalPrice s2 = double_of_Z 500 ∧ totalQuantities s2 = 5).
Proof.
  intros Hin. split; [|split; [|split]].
  - split; [by apply onAdd_merge_length|]. split.
    + rewrite onAdd_ids, Hin. apply app_nil_r.
    + intros j c Hj Hid.
      rewrite (onAdd_merge_lookup _ _ _ j c) by done.
      by rewrite decide_True.
  - intros adds.
    assert (distinct_ids (run initial (as_ops adds))) as Hd
      by apply run_distinct_ids, initial_distinct_ids.
    split; [done|]. intros item Hitem.
    rewrite <- (quantity_under_elem _ _ Hd Hitem).
    rewrite run_adds_quantity_under by apply initial_distinct_ids.
    simpl. unfold quantity_under. simpl. lia.
  - intros n img q0. by repeat split.
  - intros n img q0. repeat split; by vm_compute.
Qed.

Lemma add_existing_key_merges_witness :
  length (cartItems (add_state (onAdd (punnet 250) 3 (context stocked)))) = 2%nat ∧
  map id (cartItems (add_state (onAdd (punnet 250) 3 (context stocked))))
    = ["p1-500g-500g"; "p1-500g"] ∧
  Cart.quantity <$> cartItems (add_state (onAdd (punnet 250) 3 (context stocked))) !! 1%nat
    = Some 5.
Proof.
  destruct (add_existing_key_merges (punnet 250) 3 (context stocked))
    as [(Hlen & Hids & Hqty) _]; [reflexivity|].
  split; [exact Hlen|]. split; [exact Hids|].
  apply (Hqty 1%nat (assign_quantity_id (punnet 100) 2 "p1-500g")); reflexivity.
Defined.

(** ** The aggregates *)

(** With integer amounts the price total follows the line items as long as
    a merging add quotes the stored price. *)
Lemma sum_price_app (l1 l2 : list Product) :
  sum_price (l1 ++ l2) = sum_price l1 + sum_price l2.
Proof. induction l1; simpl in *; lia. Qed.

Lemma sum_price_split (l1 l2 : list Product) (x : Product) :
  sum_price (l1 ++ x :: l2) = sum_price l1 + price x * quantity x + sum_price l2.
Proof. rewrite sum_price_app. simpl. lia. Qed.

Lemma merge_at_stored_price_elem s product quantity x :
  merge_at_stored_price s (Add product quantity) = true →
  x ∈ cartItems s → id x = uniqueId product → price x = price product.
Proof.
  simpl. rewrite List.forallb_forall. intros H Hx%list_elem_of_In Hid.
  specialize (H x Hx). apply bool_decide_eq_true in H. auto.
Qed.

Lemma step_price_total s o :
  distinct_ids s → merge_at_stored_price s o = true →
  totalPrice s = sum_price (cartItems s) →
  totalPrice (step s o) = sum_price (cartItems (step s o)).
Proof.
  intros Hd Hp HP.
  destruct o as [product quantity|product|i value]; simpl.
  - destruct (in_cart (uniqueId product) s) eqn:Hin.
    + destruct (distinct_split _ _ Hd Hin) as (l1 & x & l2 & Hc & Hx & H1 & H2).
      assert (price x = price product) as Hprice.
      { apply (merge_at_stored_price_elem s product quantity); auto.
        rewrite Hc. set_solver. }
      rewrite (onAdd_split s l1 l2 x Hc H1 H2) by done.
      rewrite onAdd_merge by done. simpl.
      rewrite sum_price_split, HP, Hc.
      rewrite sum_price_split. simpl in *. nia.
    + rewrite onAdd_fresh by done. simpl.
      rewrite sum_price_app. simpl in *. lia.
  - destruct (in_cart (id product) s) eqn:Hin.
    + destruct (distinct_split _ _ Hd Hin) as (l1 & x & l2 & Hc & Hx & H1 & H2).
      rewrite (onRemove_split s l1 l2 x Hc H1 H2) by done. simpl.
      rewrite sum_price_app, HP, Hc.
      rewrite sum_price_split. simpl in *. lia.
    + by rewrite onRemove_absent.
  - destruct (in_cart i s) eqn:Hin.
    + destruct (distinct_split _ _ Hd Hin) as (l1 & x & l2 & Hc & <- & H1 & H2).
      destruct value.
      * rewrite (toggle_inc_split s l1 l2 x Hc H1 H2). simpl.
        rewrite sum_price_split, HP, Hc.
        rewrite sum_price_split. simpl in *. lia.
      * rewrite (toggle_dec_split s l1 l2 x Hc H1 H2).
        case_decide; [|done]. simpl.
        rewrite sum_price_split, HP, Hc.
        rewrite sum_price_split. simpl in *. lia.
    + by rewrite toggle_absent.
Qed.

Lemma run_price_total ops :
  ∀ s, distinct_ids s → totalPrice s = sum_price (cartItems s) →
       all_along merge_at_stored_price s ops = true →
       totalPrice (run s ops) = sum_price (cartItems (run s ops)).
Proof.
  induction ops as [|o ops IH]; intros s Hd Hc Hok; simpl in *; [done|].
  apply andb_true_iff in Hok as [Ho Hops].
  apply IH; auto using step_distinct_ids, step_price_total.
Qed.

(** C1, amended.  Starting from the empty cart, after every sequence of
    adds, removals and quantity adjustments in which each removal or
    adjustment names a line item of the cart, [totalQuantities] is the sum
    of the quantities of the line items, whatever the arithmetic of the
    amounts.  When the amounts are integers, so that their arithmetic is
    exact, and each add that merges into a line item quotes that item's
    stored price, [totalPrice] is the sum of price times quantity over the
    line items.  For every sequence of adds, whatever the prices quoted and
    whatever the arithmetic, [totalQuantities] is the sum of the quantities
    added and [totalPrice] the sum of price times quantity over the adds,
    accumulated in the order of the adds. *)
Theorem aggregates_after_run :
  (∀ (M : Money) (ops : list (@Op M)),
     all_along targets_exist initial ops = true →
     totalQuantities (run initial ops) = sum_quantity (cartItems (run initial ops))) ∧
  (∀ ops : list (@Op integer_money),
     all_along targets_exist initial ops = true →
     all_along merge_at_stored_price initial ops = true →
     totalPrice (run initial ops) = sum_price (cartItems (run initial ops))) ∧
  (∀ (M : Money) (adds : list (@Product M * Z)),
     totalQuantities (run initial (as_ops adds)) = added_quantity adds ∧
     totalPrice (run initial (as_ops adds)) = added_price adds).
Proof.
  split; [|split].
  - intros M ops _. by apply run_quantity_total; [apply initial_distinct_ids|].
  - intros ops _ Hprice.
    by apply run_price_total; [apply initial_distinct_ids| |].
  - intros M adds. split.
    + rewrite run_adds_quantity. simpl. lia.
    + by rewrite run_adds_price.
Qed.

Lemma aggregates_after_run_witness :
  totalQuantities (run initial sample_session)
    = sum_quantity (cartItems (run initial sample_session)) ∧
  totalPrice (run initial sample_session)
    = sum_price (cartItems (run initial sample_session)) ∧
  totalQuantities (run initial ten_tenths) = 10 ∧
  totalPrice (run initial (as_ops repriced_adds)) = 300.
Proof.
  destruct aggregates_after_run as (HQ & HP & Hadds).
  split; [apply HQ; reflexivity|].
  split; [apply HP; reflexivity|].
  split.
  - rewrite (HQ double_money ten_tenths); by vm_compute.
  - destruct (Hadds integer_money repriced_adds) as [_ ->]. reflexivity.
Defined.

(** C1 as first stated fails twice over.  The second add of
    [repriced_adds] merges into the line item stored at price 100 while
    quoting 200, so [totalPrice] becomes 300 although the single line item
    is worth 2 x 100.  And in doubles the total drifts by rounding alone:
    after one unit at [1 / 10] is added and the line item incremented nine
    times, no add having merged, [totalPrice] is ten times [1 / 10] added
    up one by one, which is below 1, while the line item of quantity 10 is
    worth [1 / 10 * 10 = 1]. *)
Lemma aggregates_drift_on_repriced_add :
  (all_along targets_exist initial (as_ops repriced_adds) = true ∧
   totalPrice (run initial (as_ops repriced_adds)) = 300 ∧
   sum_price (cartItems (run initial (as_ops repriced_adds))) = 200 ∧
   ¬ consistent (run initial (as_ops repriced_adds))) ∧
  (all_along targets_exist initial ten_tenths = true ∧
   in_cart (uniqueId tenth) initial = false ∧
   map (λ c, (id c, Cart.quantity c, price c)) (cartItems (run initial ten_tenths))
     = [("p2-1pc", 10, price tenth)] ∧
   sum_price (cartItems (run initial ten_tenths)) = double_of_Z 1 ∧
   PrimFloat.ltb (totalPrice (run initial ten_tenths)) (double_of_Z 1) = true ∧
   ¬ consistent (run initial ten_tenths)).
Proof.
  split.
  - do 3 (split; [reflexivity|]). intros [H _]. vm_compute in H. discriminate H.
  - do 5 (split; [by vm_compute|]). intros [H _].
    apply (f_equal (λ t, PrimFloat.ltb t (double_of_Z 1))) in H.
    vm_compute in H. discriminate H.
Qed.

End CartFacts.

(** * Facts about the article catalogue *)

Module InsightsFacts.
Import Insights.

(** ** Substring search *)

Lemma includes_spec (s t : string) :
  includes s t = true ↔ ∃ pre post, s = pre +:+ t +:+ post.
Proof.
  induction s as [|c s IH].
  - change (includes "" t) with (String.prefix t "" || false).
    rewrite orb_false_r, StringFacts.prefix_spec. split.
    + intros [post Hpost]. exists "", post. exact Hpost.
    + intros ([|a pre] & post & Hpre); [exists post; exact Hpre|].
      by rewrite StringFacts.append_cons in Hpre.
  - change (includes (String c s) t)
      with (String.prefix t (String c s) || includes s t).
    rewrite orb_true_iff, StringFacts.prefix_spec, IH. split.
    + intros [[post Hpost]|(pre & post & Hpre)].
      * exists "", post. exact Hpost.
      * exists (String c pre), post. rewrite StringFacts.append_cons.
        by rewrite <- Hpre.
    + intros ([|a pre] & post & Hpre).
      * left. exists post. exact Hpre.
      * right. rewrite StringFacts.append_cons in Hpre.
        injection Hpre as _ Hpre. by exists pre, post.
Qed.

(** ** Array methods *)

Lemma filter_sublist {A} (f : A → bool) (l : list A) : List.filter f l `sublist_of` l.
Proof.
  induction l as [|x l IH]; simpl; [constructor|].
  destruct (f x); by constructor.
Qed.

Lemma take_min_length {A} (n : nat) (l : list A) :
  take (n `min` length l) l = take n l.
Proof.
  destruct (Nat.le_ge_cases n (length l)).
  - by rewrite Nat.min_l.
  - rewrite Nat.min_r by done. by rewrite !take_ge.
Qed.

(** From a start that is not negative, [slice] is [drop] then [take]. *)
Lemma slice_window {A} (l : list A) (start : Z) (n : nat) :
  0 ≤ start →
  slice l start (start + Z.of_nat n) = take n (drop (Z.to_nat start) l).
Proof.
  intros Hstart. unfold slice, relative_index.
  destruct (Z.ltb_spec start 0) as [?|_]; [lia|].
  destruct (Z.ltb_spec (start + Z.of_nat n) 0) as [?|_]; [lia|].
  destruct (Z.le_ge_cases start (Z.of_nat (length l))) as [Hle|Hge].
  - rewrite (Z.min_l start) by done.
    rewrite <- (take_min_length n (drop _ l)), length_drop. f_equal. lia.
  - rewrite !Z.min_r by lia. rewrite Z.sub_diag. simpl.
    rewrite (drop_ge l (Z.to_nat start)) by lia. by rewrite take_nil.
Qed.

Section Catalogue.
Context `{Runtime}.

(** ** The filtered view *)

Lemma matchesSearch_spec s a :
  matchesSearch s a = true ↔
  contains_ignoring_case (title a) (searchQuery s) ∨
  contains_ignoring_case (excerpt a) (searchQuery s) ∨
  ∃ tag, tag ∈ tags a ∧ contains_ignoring_case tag (searchQuery s).
Proof.
  unfold matchesSearch, contains_ignoring_case.
  rewrite !orb_true_iff, !includes_spec, List.existsb_exists.
  split.
  - intros [[Ht|He]|(tag & Htag%list_elem_of_In & Hi%includes_spec)]; eauto.
  - intros [Ht|[He|(tag & Htag%list_elem_of_In & Hi%includes_spec)]]; eauto.
Qed.

Lemma matchesCategory_spec s a :
  matchesCategory s a = true ↔
  selectedCategory s = "All" ∨ category a = selectedCategory s.
Proof.
  unfold matchesCategory. by rewrite orb_true_iff, !bool_decide_eq_true.
Qed.

Lemma elem_of_filteredArticles s a :
  a ∈ filteredArticles s ↔
  a ∈ allArticles s ∧ matchesSearch s a = true ∧ matchesCategory s a = true.
Proof.
  unfold filteredArticles.
  by rewrite !list_elem_of_In, List.filter_In, andb_true_iff.
Qed.

(** The filtered view is read off the search text, the category and the
    fetched pages only. *)
Lemma filteredArticles_ext s s' :
  searchQuery s' = searchQuery s → selectedCategory s' = selectedCategory s →
  pseoPages s' = pseoPages s → filteredArticles s' = filteredArticles s.
Proof.
  intros Hq Hc Hp.
  unfold filteredArticles, allArticles, matchesSearch, matchesCategory.
  by rewrite Hq, Hc, Hp.
Qed.

Lemma totalFilteredPages_ext s s' :
  searchQuery s' = searchQuery s → selectedCategory s' = selectedCategory s →
  pseoPages s' = pseoPages s → totalFilteredPages s' = totalFilteredPages s.
Proof.
  intros Hq Hc Hp. unfold totalFilteredPages.
  by rewrite (filteredArticles_ext s s').
Qed.

Lemma totalFilteredPages_setCurrentPage f s :
  totalFilteredPages (setCurrentPage f s) = totalFilteredPages s.
Proof. by apply totalFilteredPages_ext. Qed.

(** ** The reset effect *)

Lemma dispatch_search text s :
  text ≠ searchQuery s →
  dispatch (SearchChanged text) s = setCurrentPage (λ _, 1) (setSearchQuery text s).
Proof.
  intros Hne. unfold dispatch, resetPageEffect. simpl.
  rewrite decide_False; [done|]. by intros [? _].
Qed.

Lemma dispatch_category c s :
  c ≠ selectedCategory s →
  dispatch (CategoryClicked c) s
  = setCurrentPage (λ _, 1) (setSelectedCategory c s).
Proof.
  intros Hne. unfold dispatch, resetPageEffect. simpl.
  rewrite decide_False; [done|]. by intros [_ ?].
Qed.

(** C6.  The filtered view holds exactly the articles of the merged list
    whose title, excerpt or some tag contains the search text when case
    is ignored and whose category is the selected one, the selection
    [All] admitting every category, and it lists them in the order of
    the merged list.  Setting a search text or a category other than the
    current one sets the page number to 1. *)
Theorem filtered_view_characterised (s : ViewState) :
  (∀ a, a ∈ filteredArticles s ↔
        a ∈ allArticles s ∧
        (contains_ignoring_case (title a) (searchQuery s) ∨
         contains_ignoring_case (excerpt a) (searchQuery s) ∨
         ∃ tag, tag ∈ tags a ∧ contains_ignoring_case tag (searchQuery s)) ∧
        (selectedCategory s = "All" ∨ category a = selectedCategory s)) ∧
  filteredArticles s `sublist_of` allArticles s ∧
  (∀ text, text ≠ searchQuery s →
           searchQuery (dispatch (SearchChanged text) s) = text ∧
           currentPage (dispatch (SearchChanged text) s) = 1) ∧
  (∀ c, c ≠ selectedCategory s →
        selectedCategory (dispatch (CategoryClicked c) s) = c ∧
        currentPage (dispatch (CategoryClicked c) s) = 1).
Proof.
  split; [|split; [|split]].
  - intros a.
    by rewrite elem_of_filteredArticles, matchesSearch_spec, matchesCategory_spec.
  - apply filter_sublist.
  - intros text Hne. by rewrite dispatch_search.
  - intros c Hne. by rewrite dispatch_category.
Qed.

(** ** Pagination *)

(** The page count is the least number of pages of twelve that hold the
    filtered view. *)
Lemma totalFilteredPages_bounds s :
  Z.of_nat (length (filteredArticles s)) ≤ 12 * totalFilteredPages s
    < Z.of_nat (length (filteredArticles s)) + 12.
Proof.
  unfold totalFilteredPages, itemsPerPage.
  generalize (Z.of_nat (length (filteredArticles s))). intros n.
  unfold Qround.Qceiling, Qround.Qfloor, QArith_base.Qdiv, QArith_base.Qmult,
    QArith_base.Qinv, QArith_base.Qopp, QArith_base.inject_Z. simpl.
  rewrite Z.mul_1_r. change (Z.pos (1 * 12)) with 12.
  pose proof (Z.div_mod (- n) 12 ltac:(lia)).
  pose proof (Z.mod_pos_bound (- n) 12 ltac:(lia)). lia.
Qed.

Lemma resetPageEffect_same prev next :
  searchQuery next = searchQuery prev →
  selectedCategory next = selectedCategory prev →
  resetPageEffect prev next = next.
Proof. intros Hq Hc. unfold resetPageEffect. by rewrite decide_True. Qed.

Lemma loading_resetPageEffect prev next :
  loading (resetPageEffect prev next) = loading next.
Proof. unfold resetPageEffect. by case_decide. Qed.

Lemma dispatch_fetched outcome s :
  dispatch (Fetched outcome) s = fst (fetchPSEOPages outcome s).
Proof.
  unfold dispatch. apply resetPageEffect_same;
    by destruct outcome as [error|[|] [error|pages]].
Qed.

Lemma dispatch_navigates e s :
  navigates e = true → dispatch e s = handle e s.
Proof.
  intros Hnav. unfold dispatch. by apply resetPageEffect_same; destruct e.
Qed.

Lemma dispatch_loading e s : enabled s e = true → loading (dispatch e s) = false.
Proof.
  unfold dispatch. rewrite loading_resetPageEffect.
  destruct e as [outcome| | | | | |]; simpl;
    rewrite ?andb_true_iff, ?negb_true_iff; try tauto.
  intros _. by destruct outcome as [error|[|] [error|pages]].
Qed.

Lemma quiescent_rendered s : quiescent s → rendered s.
Proof. destruct 1; [apply render_mount|by apply render_settled]. Qed.

(** While the fetch is outstanding the page is as mounted. *)
Lemma quiescent_loading s : quiescent s → loading s = true → s = initialView.
Proof.
  induction 1 as [|s e _ _ He]; [done|].
  rewrite dispatch_loading by done. discriminate.
Qed.

Ltac unpack_enabled He :=
  simpl in He; rewrite ?andb_true_iff, ?negb_true_iff in He;
  rewrite ?Z.ltb_lt, ?Z.eqb_neq in He.

Lemma dispatch_page_in_range e s :
  (loading s = true → s = initialView) →
  page_in_range s → enabled s e = true → page_in_range (dispatch e s).
Proof.
  intros Hload [Hlow Hhigh] He.
  destruct e as [outcome|text|c| | |i|].
  - rewrite (Hload He), dispatch_fetched. split; [|intros Hone].
    + by destruct outcome as [error|[|] [error|pages]].
    + destruct outcome as [error|[|] [error|pages]]; exact Hone.
  - destruct (decide (text = searchQuery s)) as [->|Hne].
    + unfold dispatch. rewrite resetPageEffect_same by done.
      by destruct s.
    + rewrite dispatch_search by done. split; [done|exact (λ Hone, Hone)].
  - destruct (decide (c = selectedCategory s)) as [->|Hne].
    + unfold dispatch. rewrite resetPageEffect_same by done.
      by destruct s.
    + rewrite dispatch_category by done. split; [done|exact (λ Hone, Hone)].
  - rewrite dispatch_navigates by done. unpack_enabled He.
    unfold page_in_range. simpl handle.
    rewrite totalFilteredPages_setCurrentPage. simpl. lia.
  - rewrite dispatch_navigates by done. unpack_enabled He.
    unfold page_in_range. simpl handle.
    rewrite totalFilteredPages_setCurrentPage. simpl. lia.
  - rewrite dispatch_navigates by done. unpack_enabled He.
    unfold page_in_range. simpl handle.
    rewrite totalFilteredPages_setCurrentPage. simpl. lia.
  - rewrite dispatch_navigates by done. unpack_enabled He.
    unfold page_in_range. simpl handle.
    rewrite totalFilteredPages_setCurrentPage. simpl. lia.
Qed.

Lemma quiescent_page_in_range s : quiescent s → page_in_range s.
Proof.
  induction 1 as [|s e Hr IH He].
  - split; [done|]. intros Hone. exact Hone.
  - apply dispatch_page_in_range; auto using quiescent_loading.
Qed.

(** C8, amended.  In every state in which the page waits for an event,
    that is once the reset effect of the render has run, the page number is
    at least 1 and, when the filtered view has at least one page, at most
    the page count, which is the least number of twelve-article pages that
    hold the filtered view.  Changing the search text or the category sets
    the page number to 1; [Previous], [Next], a numbered button and the
    last-page button leave the filtered view alone and set a page number
    between 1 and the page count.  The articles shown are the twelve of the
    filtered view that start at index [(currentPage - 1) * 12]. *)
Theorem page_number_in_range (s : ViewState) :
  quiescent s →
  (1 ≤ currentPage s ∧
   (1 ≤ totalFilteredPages s → currentPage s ≤ totalFilteredPages s)) ∧
  (Z.of_nat (length (filteredArticles s)) ≤ 12 * totalFilteredPages s
     < Z.of_nat (length (filteredArticles s)) + 12) ∧
  (∀ text, text ≠ searchQuery s →
           currentPage (dispatch (SearchChanged text) s) = 1) ∧
  (∀ c, c ≠ selectedCategory s →
        currentPage (dispatch (CategoryClicked c) s) = 1) ∧
  (∀ e, navigates e = true → enabled s e = true →
        filteredArticles (dispatch e s) = filteredArticles s ∧
        1 ≤ currentPage (dispatch e s) ≤ totalFilteredPages s) ∧
  paginatedArticles s
  = take 12 (drop (Z.to_nat ((currentPage s - 1) * 12)) (filteredArticles s)).
Proof.
  intros Hr. pose proof (quiescent_page_in_range s Hr) as Hrange.
  split; [exact Hrange|]. split; [apply totalFilteredPages_bounds|].
  split; [by intros text Hne; rewrite dispatch_search|].
  split; [by intros c Hne; rewrite dispatch_category|].
  split.
  - intros e Hnav He.
    assert (1 < totalFilteredPages s) as Hpages.
    { destruct e; try discriminate Hnav; unpack_enabled He; lia. }
    destruct (dispatch_page_in_range e s (quiescent_loading s Hr) Hrange He)
      as [Hlow Hhigh].
    rewrite dispatch_navigates in * by done.
    assert (totalFilteredPages (handle e s) = totalFilteredPages s) as Hsame
      by (destruct e; try discriminate Hnav; apply totalFilteredPages_setCurrentPage).
    rewrite Hsame in Hhigh. split; [|lia].
    destruct e; try discriminate Hnav; by apply filteredArticles_ext.
  - unfold paginatedArticles, startIndex, itemsPerPage.
    destruct Hrange as [Hlow _].
    apply (slice_window (filteredArticles s) ((currentPage s - 1) * 12) 12). lia.
Qed.

(** ** The remote fetch *)

(** C7.  When the fetch ends without pages (it is rejected, answered with
    a non-success status, or its body cannot be used) the state holds no
    remote article, so the merged list is the fifteen static articles, and
    [loading] is false.  The state is the one a successful fetch of an
    empty collection leaves, and the state is all the page renders from:
    no error is kept in it.  Only the console differs, where a rejected
    fetch leaves a diagnostic. *)
Theorem failed_fetch_shows_static_catalogue (outcome : FetchOutcome) (s : ViewState) :
  quiescent s → enabled s (Fetched outcome) = true →
  fetch_failed outcome = true →
  allArticles (dispatch (Fetched outcome) s) = staticArticles ∧
  length (allArticles (dispatch (Fetched outcome) s)) = 15%nat ∧
  pseoPages (dispatch (Fetched outcome) s) = [] ∧
  loading (dispatch (Fetched outcome) s) = false ∧
  dispatch (Fetched outcome) s = dispatch (Fetched (Responded true (Pages []))) s.
Proof.
  intros Hr He Hfail. rewrite (quiescent_loading s Hr He).
  rewrite !dispatch_fetched.
  destruct outcome as [error|[|] [error|pages]]; try discriminate Hfail;
    by repeat split.
Qed.
End Catalogue.

(** ** Worked examples, in the ASCII runtime *)

#[local] Existing Instance ascii_runtime.

Lemma second_page_quiescent : quiescent second_page.
Proof.
  unfold second_page, static_only.
  apply quiet_dispatch; [apply quiet_dispatch; [apply quiet_mount|]|]; reflexivity.
Qed.

Lemma filtered_view_characterised_witness :
  searchQuery (dispatch (SearchChanged "sikkim") second_page) = "sikkim" ∧
  currentPage (dispatch (SearchChanged "sikkim") second_page) = 1.
Proof.
  destruct (filtered_view_characterised second_page) as (_ & _ & Hsearch & _).
  apply Hsearch. discriminate.
Defined.

Lemma page_number_in_range_witness :
  1 ≤ currentPage second_page ≤ totalFilteredPages second_page ∧
  currentPage (dispatch (SearchChanged "sikkim") second_page) = 1 ∧
  1 ≤ currentPage (dispatch PreviousClicked second_page) ≤ 2 ∧
  paginatedArticles second_page = take 12 (drop 12 (filteredArticles second_page)).
Proof.
  assert (quiescent second_page) as Hquiet.
  { unfold second_page, static_only.
    apply quiet_dispatch; [apply quiet_dispatch; [apply quiet_mount|]|];
      reflexivity. }
  destruct (page_number_in_range second_page Hquiet)
    as ([Hlow Hhigh] & _ & Hsearch & _ & Hnav & Hslice).
  split; [split; [exact Hlow | apply Hhigh; discriminate]|].
  split; [apply Hsearch; discriminate|].
  split; [apply (Hnav PreviousClicked); reflexivity|].
  exact Hslice.
Defined.

(** C8 as first stated fails in the render between a change of the filter
    and the reset effect: on page 2 of the static catalogue, a click on the
    category [Location Investment] renders its four articles, hence one
    page, with the page number still 2, and the slice shown is empty. *)
Lemma page_out_of_range_before_reset :
  rendered (handle (CategoryClicked "Location Investment") second_page) ∧
  length (filteredArticles (handle (CategoryClicked "Location Investment") second_page))
    = 4%nat ∧
  totalFilteredPages (handle (CategoryClicked "Location Investment") second_page) = 1 ∧
  currentPage (handle (CategoryClicked "Location Investment") second_page) = 2 ∧
  paginatedArticles (handle (CategoryClicked "Location Investment") second_page) = [] ∧
  ¬ page_in_range (handle (CategoryClicked "Location Investment") second_page).
Proof.
  split; [apply render_handled; [apply second_page_quiescent|by vm_compute]|].
  do 4 (split; [by vm_compute|]). intros [_ Hhigh].
  vm_compute in Hhigh. apply Hhigh; [discriminate|reflexivity].
Qed.

Lemma failed_fetch_shows_static_catalogue_witness :
  allArticles static_only = staticArticles ∧
  length (allArticles static_only) = 15%nat ∧
  pseoPages static_only = [] ∧
  loading static_only = false ∧
  static_only = dispatch (Fetched (Responded true (Pages []))) initialView.
Proof.
  apply (failed_fetch_shows_static_catalogue
           (Rejected "TypeError: Failed to fetch") initialView);
    [apply quiet_mount | reflexivity | reflexivity].
Defined.

End InsightsFacts.

(** * Laws of the cart operations *)

Module CartLaws.
Import Cart CartFacts.

Section Laws.
Context {M : Money}.

(** ** Helpers *)

Lemma with_quantity_with_quantity x q q' :
  with_quantity (with_quantity x q) q' = with_quantity x q'.
Proof. done. Qed.

Lemma with_quantity_same x : with_quantity x (quantity x) = x.
Proof. by destruct x. Qed.

Lemma find_None_absent i s :
  find (λ item, id item = i) (cartItems s) = None → in_cart i s = false.
Proof.
  intros Hfind. destruct (in_cart i s) eqn:Hin; [|done].
  destruct (find_present i s Hin) as [x Hx]. congruence.
Qed.

Lemma filter_id_gone i (l : list Product) :
  i ∉ map id (filter (λ item, id item ≠ i) l).
Proof.
  induction l as [|x l IH]; simpl; [apply not_elem_of_nil|].
  rewrite filter_cons. case_decide; [|done].
  simpl. apply not_elem_of_cons. split; [congruence|done].
Qed.

Lemma filter_id_other i k (l : list Product) :
  k ≠ i → k ∈ map id (filter (λ item, id item ≠ i) l) ↔ k ∈ map id l.
Proof.
  intros Hne. induction l as [|x l IH]; simpl; [done|].
  rewrite filter_cons. case_decide; simpl; rewrite !elem_of_cons, ?IH; [done|].
  split; [by right|]. intros [->|?]; [|done]. by destruct Hne.
Qed.

(** ** Removal *)

(** X3.  From any state, after [onRemove] no line item carries the
    product's identifier, the line items under every other identifier are
    still there, and removing the same product again changes nothing. *)
Theorem onRemove_clears_and_is_idempotent (product : Product) (s : State) :
  in_cart (id product) (onRemove product s) = false ∧
  (∀ k, k ≠ id product → in_cart k (onRemove product s) = in_cart k s) ∧
  onRemove product (onRemove product s) = onRemove product s.
Proof.
  assert (in_cart (id product) (onRemove product s) = false) as Hgone.
  { unfold onRemove.
    destruct (find _ (cartItems s)) as [foundProduct|] eqn:Hfind.
    - apply in_cart_false. simpl. apply filter_id_gone.
    - by apply find_None_absent. }
  split; [done|]. split; [|by apply onRemove_absent].
  intros k Hk. unfold onRemove.
  destruct (find _ (cartItems s)) as [foundProduct|]; [|done].
  unfold in_cart. simpl. apply bool_decide_ext. by apply filter_id_other.
Qed.

(** ** The quantity total *)

Lemma sum_quantity_lower_bound (l : list Product) :
  Forall (λ item, 1 ≤ quantity item) l → Z.of_nat (length l) ≤ sum_quantity l.
Proof. induction 1; simpl; lia. Qed.

Lemma reachable_quantity_total s :
  reachable s → totalQuantities s = sum_quantity (cartItems s).
Proof.
  induction 1 as [|s product quantity Hr IH _|s product Hr IH|s i value Hr IH
                  |s _ IH|s _ IH]; try done.
  - apply (step_quantity_total s (Add product quantity)); auto using reachable_distinct_ids.
  - apply (step_quantity_total s (Remove product)); auto using reachable_distinct_ids.
  - apply (step_quantity_total s (Toggle i value)); auto using reachable_distinct_ids.
Qed.

(** X5.  In every reachable state, whatever prices the adds quoted,
    [totalQuantities] is the sum of the quantities of the line items; it is
    at least the number of line items, and it is 0 exactly when the cart is
    empty. *)
Theorem quantity_total_counts_items (s : State) :
  reachable s →
  totalQuantities s = sum_quantity (cartItems s) ∧
  Z.of_nat (length (cartItems s)) ≤ totalQuantities s ∧
  (totalQuantities s = 0 ↔ cartItems s = []).
Proof.
  intros Hr. pose proof (reachable_quantity_total s Hr) as HQ.
  pose proof (sum_quantity_lower_bound _ (reachable_positive_quantities s Hr)) as Hlow.
  split; [done|]. split; [lia|]. split.
  - intros Hzero. destruct (cartItems s) as [|y l]; [done|].
    change (length (y :: l)) with (S (length l)) in Hlow. lia.
  - intros Hnil. rewrite HQ, Hnil. done.
Qed.

(** ** The quantity selector *)

Lemma reachable_qty s : reachable s → 1 ≤ qty s.
Proof.
  induction 1 as [|s product quantity Hr IH _|s product Hr IH|s i value Hr IH
                  |s _ IH|s _ IH].
  - done.
  - by rewrite onAdd_qty.
  - unfold onRemove. by destruct (find _ (cartItems s)).
  - unfold toggleCartItemQuanitity.
    destruct (find _ (cartItems s)); [|done].
    destruct value; [done|]. by case_decide.
  - simpl. lia.
  - simpl. case_decide; lia.
Qed.

(** X6.  [decQty] never leaves the selector below 1, from whatever value.
    In every reachable state the selector is at least 1, [decQty] after
    [incQty] gives back the state, and [decQty] at 1 changes nothing. *)
Theorem quantity_selector_clamped :
  (∀ s, 1 ≤ qty (decQty s)) ∧
  (∀ s, reachable s →
        1 ≤ qty s ∧ decQty (incQty s) = s ∧ (qty s = 1 → decQty s = s)).
Proof.
  split.
  - intros s. simpl. case_decide; lia.
  - intros s Hr. pose proof (reachable_qty s Hr) as Hq.
    split; [done|]. split.
    + unfold decQty, incQty, setQty. simpl. rewrite decide_False by lia.
      destruct s; simpl in *; f_equal; lia.
    + intros Hone. unfold decQty, setQty. rewrite decide_True by lia.
      destruct s; simpl in *; f_equal; lia.
Qed.

(** ** Adjustments as updates in place *)

Lemma map_update_absent i (f : Product → Product) (l : list Product) :
  i ∉ map id l → map (λ c, if decide (i = id c) then f c else c) l = l.
Proof.
  induction l as [|x l IH]; simpl; [done|].
  intros Hn. apply not_elem_of_cons in Hn as [Hx Hl].
  rewrite decide_False by done. by rewrite IH.
Qed.

Lemma map_update_split i (f : Product → Product) (l1 l2 : list Product) x :
  id x = i → i ∉ map id l1 → i ∉ map id l2 →
  map (λ c, if decide (i = id c) then f c else c) (l1 ++ x :: l2) = l1 ++ f x :: l2.
Proof.
  intros Hx H1 H2. rewrite map_app. simpl.
  rewrite !map_update_absent by done. by rewrite decide_True.
Qed.

(** X7.  In a reachable cart [toggleCartItemQuanitity], which filters the
    line item out and splices its updated copy back in, changes the line
    items exactly as an update in place does: every line item keeps its
    position, the one named has its quantity raised by 1 (lowered by 1 when
    it is above 1, on [dec]) and no other field changed, and the others are
    untouched. *)
Theorem toggle_updates_in_place (i : string) (s : State) :
  reachable s →
  cartItems (toggleCartItemQuanitity i inc s)
  = map (λ c, if decide (i = id c) then with_quantity c (quantity c + 1) else c)
        (cartItems s) ∧
  cartItems (toggleCartItemQuanitity i dec s)
  = map (λ c, if decide (i = id c)
              then if decide (quantity c > 1)
                   then with_quantity c (quantity c - 1) else c
              else c)
        (cartItems s).
Proof.
  intros Hr. pose proof (reachable_distinct_ids s Hr) as Hd.
  destruct (in_cart i s) eqn:Hin.
  - destruct (distinct_split _ _ Hd Hin) as (l1 & x & l2 & Hc & <- & H1 & H2).
    rewrite (toggle_inc_split s l1 l2 x Hc H1 H2).
    rewrite (toggle_dec_split s l1 l2 x Hc H1 H2).
    rewrite Hc, !map_update_split by done.
    split; [done|]. by case_decide.
  - rewrite !toggle_absent by done. apply in_cart_false in Hin.
    by rewrite !map_update_absent.
Qed.

(** X9.  No cart operation touches the drawer or the selector: [onAdd],
    [onRemove] and [toggleCartItemQuanitity] leave [showCart], [active],
    [indexColor] and [qty] as they were; in particular adding to the cart
    does not open it. *)
Theorem cart_operations_keep_flags (s : State) (o : Op) :
  showCart (step s o) = showCart s ∧ active (step s o) = active s ∧
  indexColor (step s o) = indexColor s ∧ qty (step s o) = qty s.
Proof.
  destruct o as [product quantity|product|i value]; simpl.
  - unfold onAdd. by destruct (find _ (cartItems s)).
  - unfold onRemove. by destruct (find _ (cartItems s)).
  - unfold toggleCartItemQuanitity. destruct (find _ (cartItems s)); [|done].
    destruct value; [done|]. by case_decide.
Qed.

(** ** Round trips *)

Lemma find_split i s x :
  distinct_ids s → find (λ item, id item = i) (cartItems s) = Some x →
  ∃ l1 l2, cartItems s = l1 ++ x :: l2 ∧ id x = i ∧
           (id x ∉ map id l1) ∧ (id x ∉ map id l2).
Proof.
  intros Hd Hfind.
  assert (in_cart i s = true) as Hin.
  { destruct (in_cart i s) eqn:Hin; [done|].
    rewrite (find_absent _ _ Hin) in Hfind. discriminate. }
  destruct (distinct_split _ _ Hd Hin) as (l1 & y & l2 & Hc & <- & H1 & H2).
  assert (y = x) as ->.
  { unfold find in Hfind. rewrite (split_list_find s l1 l2 y Hc H1) in Hfind.
    by injection Hfind. }
  by exists l1, l2.
Qed.

(** An increment undone by a decrement: everything is back but the price
    total, which has had the price added and subtracted. *)
Lemma inc_then_dec_found i s x :
  reachable s → find (λ item, id item = i) (cartItems s) = Some x →
  toggleCartItemQuanitity i dec (toggleCartItemQuanitity i inc s)
  = setTotalPrice (λ t, (t + price x - price x)%money) s.
Proof.
  intros Hr Hfind. pose proof (reachable_distinct_ids s Hr) as Hd.
  pose proof (reachable_positive_quantities s Hr) as Hpos.
  destruct (find_split i s x Hd Hfind) as (l1 & l2 & Hc & <- & H1 & H2).
  assert (1 ≤ quantity x) as Hx.
  { unfold positive_quantities in Hpos. rewrite Hc, Forall_app, Forall_cons in Hpos.
    tauto. }
  rewrite (toggle_inc_split s l1 l2 x Hc H1 H2).
  match goal with |- toggleCartItemQuanitity _ dec ?s' = _ =>
    etrans;
    [exact (toggle_dec_split s' l1 l2 (with_quantity x (quantity x + 1)) eq_refl H1 H2)|]
  end.
  simpl. rewrite decide_True by lia.
  rewrite with_quantity_with_quantity.
  replace (quantity x + 1 - 1) with (quantity x) by lia.
  rewrite with_quantity_same, <- Hc.
  destruct s; unfold setTotalPrice; simpl; f_equal; lia.
Qed.

Lemma dec_then_inc_found i s x :
  reachable s → find (λ item, id item = i) (cartItems s) = Some x →
  1 < quantity x →
  toggleCartItemQuanitity i inc (toggleCartItemQuanitity i dec s)
  = setTotalPrice (λ t, (t - price x + price x)%money) s.
Proof.
  intros Hr Hfind Hq. pose proof (reachable_distinct_ids s Hr) as Hd.
  destruct (find_split i s x Hd Hfind) as (l1 & l2 & Hc & <- & H1 & H2).
  rewrite (toggle_dec_split s l1 l2 x Hc H1 H2), decide_True by lia.
  match goal with |- toggleCartItemQuanitity _ inc ?s' = _ =>
    etrans;
    [exact (toggle_inc_split s' l1 l2 (with_quantity x (quantity x - 1)) eq_refl H1 H2)|]
  end.
  simpl. rewrite with_quantity_with_quantity.
  replace (quantity x - 1 + 1) with (quantity x) by lia.
  rewrite with_quantity_same, <- Hc.
  destruct s; unfold setTotalPrice; simpl; f_equal; lia.
Qed.

Lemma dec_at_one_then_inc i s x :
  find (λ item, id item = i) (cartItems s) = Some x → quantity x = 1 →
  toggleCartItemQuanitity i inc (toggleCartItemQuanitity i dec s)
  = toggleCartItemQuanitity i inc s.
Proof.
  intros Hfind Hq. f_equal. unfold toggleCartItemQuanitity. rewrite Hfind.
  rewrite decide_False; [done|lia].
Qed.

(** An add of a product object whose key is new, undone by the removal
    of that object. *)
Lemma add_then_remove_fresh (w : World) (r : ref) (quantity : Z) :
  in_cart (uniqueId (objects w r)) (context w) = false →
  context (call_onRemove r (call_onAdd r quantity w))
  = setTotalPrice
      (λ t, (t + price (objects w r) * quantity
               - price (objects w r) * quantity)%money)
      (context w).
Proof.
  intros Hfresh. unfold call_onRemove, call_onAdd. simpl.
  rewrite fn_lookup_insert, onAdd_fresh by done. simpl.
  apply in_cart_false in Hfresh.
  match goal with |- onRemove ?p ?s' = _ =>
    etrans;
    [exact (onRemove_split s' (cartItems (context w)) [] p eq_refl Hfresh
              (not_elem_of_nil _) p eq_refl)|]
  end.
  simpl. rewrite app_nil_r. destruct (context w); unfold setTotalPrice; simpl; f_equal; lia.
Qed.

Lemma add_then_remove_frame (w : World) (r : ref) (quantity : Z) :
  in_cart (uniqueId (objects w r)) (context w) = false →
  length (toasts (call_onRemove r (call_onAdd r quantity w)))
    = S (length (toasts w)) ∧
  objects (call_onRemove r (call_onAdd r quantity w)) r
    = assign_quantity_id (objects w r) quantity (uniqueId (objects w r)).
Proof.
  intros Hfresh. unfold call_onRemove, call_onAdd. simpl.
  rewrite fn_lookup_insert, onAdd_fresh by done. simpl.
  split; [|done]. rewrite length_app. simpl. lia.
Qed.

(** An increment is an add of one unit at the stored price, as far as
    one unit at a price costs that price. *)
Lemma inc_is_add_one (product x : Product) (s : State) :
  reachable s →
  find (λ item, id item = uniqueId product) (cartItems s) = Some x →
  price product = price x →
  (price x * 1)%money = price x →
  toggleCartItemQuanitity (uniqueId product) inc s = add_state (onAdd product 1 s).
Proof.
  intros Hr Hfind Hprice Hunit. pose proof (reachable_distinct_ids s Hr) as Hd.
  destruct (find_split _ s x Hd Hfind) as (l1 & l2 & Hc & Hy & H1 & H2).
  assert (in_cart (uniqueId product) s = true) as Hin.
  { apply in_cart_true. rewrite <- Hy, Hc, map_app. simpl. set_solver. }
  rewrite <- Hy at 1. rewrite (toggle_inc_split s l1 l2 x Hc H1 H2).
  rewrite onAdd_merge by done. simpl. rewrite Hc, <- Hy.
  rewrite (map_merge_split (id x) 1 l1 l2 x eq_refl H1 H2).
  by rewrite Hprice, Hunit.
Qed.

End Laws.

(** ** Worked examples of the laws above, in integer amounts *)

#[local] Existing Instance integer_money.

Ltac reach_stocked :=
  change (context stocked)
    with (add_state (onAdd (objects preloaded 1%nat) 2 (context preloaded)));
  apply reach_onAdd; [|lia];
  change (context preloaded) with (add_state (onAdd (shelf 0%nat) 1 initial));
  apply reach_onAdd; [apply reach_initial|lia].

(** A state given as a run of adds from the empty cart is reachable. *)
Ltac reach_by_adds :=
  cbv [two_lines six_pack counter context run foldl step];
  repeat first [apply reach_initial | apply reach_onAdd; [|lia]].

Lemma onRemove_clears_and_is_idempotent_witness :
  in_cart "p1-500g-500g"
    (onRemove (assign_quantity_id (punnet 100) 2 "p1-500g") (context stocked)) = true.
Proof.
  destruct (onRemove_clears_and_is_idempotent
              (assign_quantity_id (punnet 100) 2 "p1-500g") (context stocked))
    as (_ & Hother & _).
  rewrite Hother; [reflexivity|discriminate].
Defined.

Lemma quantity_total_counts_items_witness :
  totalQuantities (context stocked) = 3 ∧
  Z.of_nat (length (cartItems (context stocked))) ≤ totalQuantities (context stocked).
Proof.
  destruct (quantity_total_counts_items (context stocked)) as (HQ & Hlen & _);
    [reach_stocked|].
  split; [rewrite HQ; reflexivity|exact Hlen].
Defined.

Lemma quantity_selector_clamped_witness :
  1 ≤ qty (context stocked) ∧ decQty (incQty (context stocked)) = context stocked ∧
  decQty (context stocked) = context stocked.
Proof.
  destruct (quantity_selector_clamped (M := integer_money)) as [_ Hreach].
  destruct (Hreach (context stocked)) as (Hq & Hround & Hone); [reach_stocked|].
  split; [exact Hq|]. split; [exact Hround|]. apply Hone. reflexivity.
Defined.

Lemma toggle_updates_in_place_witness :
  map quantity (cartItems (toggleCartItemQuanitity "p1-500g" inc (context stocked)))
    = [1; 3] ∧
  map quantity (cartItems (toggleCartItemQuanitity "p1-500g-500g" dec (context stocked)))
    = [1; 2].
Proof.
  split.
  - destruct (toggle_updates_in_place "p1-500g" (context stocked)) as [-> _];
      [reach_stocked|reflexivity].
  - destruct (toggle_updates_in_place "p1-500g-500g" (context stocked)) as [_ ->];
      [reach_stocked|reflexivity].
Defined.

(** ** Round trips and the price total *)

(** Adding an integer amount and taking it off again, in either order,
    gives back the total. *)
Lemma setTotalPrice_add_sub (p : Z) (s : @State integer_money) :
  setTotalPrice (λ t, (t + p - p)%money) s = s.
Proof. destruct s. unfold setTotalPrice. simpl. f_equal. lia. Qed.

Lemma setTotalPrice_sub_add (p : Z) (s : @State integer_money) :
  setTotalPrice (λ t, (t - p + p)%money) s = s.
Proof. destruct s. unfold setTotalPrice. simpl. f_equal. lia. Qed.

(** X1.  In a reachable cart, incrementing a line item and then
    decrementing it gives back the line items in their order,
    [totalQuantities] and every other cell, and leaves [totalPrice] at
    [(totalPrice + price) - price].  (For an identifier not in the cart
    both steps do nothing.)  With integer amounts that is the old total,
    so the whole state is back.  In doubles it need not be: in the cart
    holding one unit at 0.1 and one at 0.2, the round trip on the second
    line item leaves [totalPrice] below what it was. *)
Theorem toggle_inc_then_dec :
  (∀ (M : Money) (i : string) (s : @State M),
     reachable s →
     (∀ x, find (λ item, id item = i) (cartItems s) = Some x →
           toggleCartItemQuanitity i dec (toggleCartItemQuanitity i inc s)
           = setTotalPrice (λ t, (t + price x - price x)%money) s) ∧
     (in_cart i s = false →
      toggleCartItemQuanitity i dec (toggleCartItemQuanitity i inc s) = s)) ∧
  (∀ (i : string) (s : @State integer_money),
     reachable s →
     toggleCartItemQuanitity i dec (toggleCartItemQuanitity i inc s) = s) ∧
  (reachable two_lines ∧
   cartItems (toggleCartItemQuanitity "p3-1pc" dec
                (toggleCartItemQuanitity "p3-1pc" inc two_lines))
   = cartItems two_lines ∧
   PrimFloat.ltb
     (totalPrice (toggleCartItemQuanitity "p3-1pc" dec
                    (toggleCartItemQuanitity "p3-1pc" inc two_lines)))
     (totalPrice two_lines) = true).
Proof.
  split; [|split].
  - intros M i s Hr. split.
    + intros x Hfind. by apply inc_then_dec_found.
    + intros Hin. by rewrite (toggle_absent i inc s Hin), (toggle_absent i dec s Hin).
  - intros i s Hr. destruct (in_cart i s) eqn:Hin.
    + destruct (find_present i s Hin) as [x Hfind].
      rewrite (inc_then_dec_found i s x Hr Hfind). apply setTotalPrice_add_sub.
    + by rewrite (toggle_absent i inc s Hin), (toggle_absent i dec s Hin).
  - split; [reach_by_adds|]. split; reflexivity.
Qed.

Lemma toggle_inc_then_dec_witness :
  toggleCartItemQuanitity "p1-500g" dec
    (toggleCartItemQuanitity "p1-500g" inc (context stocked)) = context stocked ∧
  toggleCartItemQuanitity "p3-1pc" dec (toggleCartItemQuanitity "p3-1pc" inc two_lines)
  = setTotalPrice (λ t, (t + price fifth - price fifth)%money) two_lines ∧
  toggleCartItemQuanitity "p9-1pc" dec (toggleCartItemQuanitity "p9-1pc" inc two_lines)
  = two_lines.
Proof.
  destruct toggle_inc_then_dec as (Hany & Hexact & _).
  split; [apply Hexact; reach_stocked|].
  destruct (Hany double_money "p3-1pc" two_lines) as [Hfound _]; [reach_by_adds|].
  destruct (Hany double_money "p9-1pc" two_lines) as [_ Habsent]; [reach_by_adds|].
  split.
  - apply (Hfound (assign_quantity_id fifth 1 "p3-1pc")). reflexivity.
  - apply Habsent. reflexivity.
Defined.

(** X2.  In a reachable cart, decrementing a line item of quantity above 1
    and then incrementing it gives back the line items, [totalQuantities]
    and every other cell, and leaves [totalPrice] at
    [(totalPrice - price) + price]; at quantity 1 the decrement does
    nothing, so the pair acts as one increment.  With integer amounts the
    first case gives back the whole state.  In doubles it need not: in the
    cart holding six units at 4.99 the round trip leaves [totalPrice] above
    what it was. *)
Theorem toggle_dec_then_inc :
  (∀ (M : Money) (i : string) (s : @State M) (x : @Product M),
     reachable s →
     find (λ item, id item = i) (cartItems s) = Some x →
     (1 < quantity x →
      toggleCartItemQuanitity i inc (toggleCartItemQuanitity i dec s)
      = setTotalPrice (λ t, (t - price x + price x)%money) s) ∧
     (quantity x = 1 →
      toggleCartItemQuanitity i inc (toggleCartItemQuanitity i dec s)
      = toggleCartItemQuanitity i inc s)) ∧
  (∀ (i : string) (s : @State integer_money) (x : @Product integer_money),
     reachable s →
     find (λ item, id item = i) (cartItems s) = Some x →
     1 < quantity x →
     toggleCartItemQuanitity i inc (toggleCartItemQuanitity i dec s) = s) ∧
  (reachable six_pack ∧
   cartItems (toggleCartItemQuanitity "p4-1pc" inc
                (toggleCartItemQuanitity "p4-1pc" dec six_pack))
   = cartItems six_pack ∧
   PrimFloat.ltb
     (totalPrice six_pack)
     (totalPrice (toggleCartItemQuanitity "p4-1pc" inc
                    (toggleCartItemQuanitity "p4-1pc" dec six_pack))) = true).
Proof.
  split; [|split].
  - intros M i s x Hr Hfind. split.
    + by apply dec_then_inc_found.
    + by apply dec_at_one_then_inc.
  - intros i s x Hr Hfind Hq.
    rewrite (dec_then_inc_found i s x Hr Hfind Hq). apply setTotalPrice_sub_add.
  - split; [reach_by_adds|]. split; reflexivity.
Qed.

Lemma toggle_dec_then_inc_witness :
  toggleCartItemQuanitity "p1-500g" inc
    (toggleCartItemQuanitity "p1-500g" dec (context stocked)) = context stocked ∧
  toggleCartItemQuanitity "p1-500g-500g" inc
    (toggleCartItemQuanitity "p1-500g-500g" dec (context stocked))
  = toggleCartItemQuanitity "p1-500g-500g" inc (context stocked) ∧
  toggleCartItemQuanitity "p4-1pc" inc (toggleCartItemQuanitity "p4-1pc" dec six_pack)
  = setTotalPrice
      (λ t, (t - price (priced "p4" 499 100) + price (priced "p4" 499 100))%money)
      six_pack.
Proof.
  destruct toggle_dec_then_inc as (Hany & Hexact & _).
  split; [|split].
  - eapply (Hexact "p1-500g" (context stocked));
      [reach_stocked|reflexivity|simpl; lia].
  - eapply (Hany integer_money "p1-500g-500g" (context stocked));
      [reach_stocked|reflexivity|reflexivity].
  - destruct (Hany double_money "p4-1pc" six_pack
                (assign_quantity_id (priced "p4" 499 100) 6 "p4-1pc"))
      as [Hfound _]; [reach_by_adds|reflexivity|].
    apply Hfound. simpl. lia.
Defined.

(** X4.  Adding a product object whose composite key is not in the cart
    and then removing that same object gives back the line items,
    [totalQuantities] and every other cell of the store, and leaves
    [totalPrice] at [(totalPrice + price * quantity) - price * quantity]:
    [onAdd] has written the key into the object's [id], and [onRemove]
    looks the line item up by that [id].  One toast has been emitted and
    the object keeps the key and the quantity written into it.  With
    integer amounts the state of the store is back as a whole.  In doubles
    it need not be: with one unit at 0.1 in the cart, adding one unit at
    0.2 and removing it leaves [totalPrice] above what it was. *)
Theorem add_then_remove_same_object :
  (∀ (M : Money) (w : @World M) (r : ref) (quantity : Z),
     in_cart (uniqueId (objects w r)) (context w) = false →
     context (call_onRemove r (call_onAdd r quantity w))
     = setTotalPrice
         (λ t, (t + price (objects w r) * quantity
                  - price (objects w r) * quantity)%money)
         (context w) ∧
     length (toasts (call_onRemove r (call_onAdd r quantity w)))
       = S (length (toasts w)) ∧
     objects (call_onRemove r (call_onAdd r quantity w)) r
       = assign_quantity_id (objects w r) quantity (uniqueId (objects w r))) ∧
  (∀ (w : @World integer_money) (r : ref) (quantity : Z),
     in_cart (uniqueId (objects w r)) (context w) = false →
     context (call_onRemove r (call_onAdd r quantity w)) = context w) ∧
  (in_cart (uniqueId (objects counter 0%nat)) (context counter) = false ∧
   cartItems (context (call_onRemove 0%nat (call_onAdd 0%nat 1 counter)))
   = cartItems (context counter) ∧
   PrimFloat.ltb
     (totalPrice (context counter))
     (totalPrice (context (call_onRemove 0%nat (call_onAdd 0%nat 1 counter)))) = true).
Proof.
  split; [|split].
  - intros M w r quantity Hfresh.
    split; [by apply add_then_remove_fresh|by apply add_then_remove_frame].
  - intros w r quantity Hfresh.
    rewrite (add_then_remove_fresh w r quantity Hfresh).
    apply (setTotalPrice_add_sub (price (objects w r) * quantity)).
  - repeat split; reflexivity.
Qed.

Lemma add_then_remove_same_object_witness :
  context (call_onRemove 1%nat (call_onAdd 1%nat 4 preloaded)) = context preloaded ∧
  length (toasts (call_onRemove 0%nat (call_onAdd 0%nat 1 counter))) = 1%nat.
Proof.
  destruct add_then_remove_same_object as (Hany & Hexact & _).
  split; [apply Hexact; reflexivity|].
  destruct (Hany double_money counter 0%nat 1) as (_ & Htoasts & _);
    [reflexivity|exact Htoasts].
Defined.

(** ** Increment and add *)

(** X8.  In a reachable cart, incrementing the line item under a product's
    composite key is the same as adding one unit of a product that quotes
    the stored price: both give the same state (only the toast of [onAdd]
    tells them apart).  This holds with integer amounts, and in any
    arithmetic in which one unit at the stored price costs that price. *)
Theorem increment_is_add_of_one :
  (∀ (product x : @Product integer_money) (s : @State integer_money),
     reachable s →
     find (λ item, id item = uniqueId product) (cartItems s) = Some x →
     price product = price x →
     toggleCartItemQuanitity (uniqueId product) inc s = add_state (onAdd product 1 s)) ∧
  (∀ (M : Money) (product x : @Product M) (s : @State M),
     reachable s →
     find (λ item, id item = uniqueId product) (cartItems s) = Some x →
     price product = price x →
     (price x * 1)%money = price x →
     toggleCartItemQuanitity (uniqueId product) inc s = add_state (onAdd product 1 s)).
Proof.
  split.
  - intros product x s Hr Hfind Hprice.
    apply (inc_is_add_one product x s Hr Hfind Hprice). simpl. lia.
  - intros M product x s. apply inc_is_add_one.
Qed.

Lemma increment_is_add_of_one_witness :
  toggleCartItemQuanitity "p1-500g" inc (context stocked)
  = add_state (onAdd (punnet 100) 1 (context stocked)) ∧
  toggleCartItemQuanitity "p3-1pc" inc two_lines = add_state (onAdd fifth 1 two_lines).
Proof.
  destruct increment_is_add_of_one as (Hexact & Hany).
  split.
  - apply (Hexact (punnet 100) (assign_quantity_id (punnet 100) 2 "p1-500g")
             (context stocked));
      [reach_stocked|reflexivity|reflexivity].
  - apply (Hany double_money fifth (assign_quantity_id fifth 1 "p3-1pc") two_lines);
      [reach_by_adds|reflexivity|reflexivity|reflexivity].
Defined.

End CartLaws.

(** * Laws of the article catalogue *)

Module InsightsLaws.
Import Insights InsightsFacts.

(** A decidable closed proposition, settled by evaluation. *)
Ltac decide_by_compute := refine (bool_decide_unpack _ _); by vm_compute.

(** ** Category buttons *)

Lemma elem_of_distinct_from seen l c :
  c ∈ distinct_from seen l ↔ c ∈ l ∧ c ∉ seen.
Proof.
  revert seen. induction l as [|x l IH]; intros seen; simpl.
  - split; [by intros ?%elem_of_nil|]. by intros [?%elem_of_nil _].
  - case_decide as Hx.
    + rewrite IH, elem_of_cons. split; [tauto|].
      intros [[->|?] ?]; tauto.
    + rewrite !elem_of_cons, IH, elem_of_cons. split.
      * intros [->|[? ?]]; tauto.
      * intros [[->|?] ?]; [by left|].
        destruct (decide (c = x)); [by left|right; tauto].
Qed.

Lemma NoDup_distinct_from seen l : NoDup (distinct_from seen l).
Proof.
  revert seen. induction l as [|x l IH]; intros seen; simpl; [constructor|].
  case_decide; [apply IH|].
  constructor; [|apply IH].
  rewrite elem_of_distinct_from, elem_of_cons. tauto.
Qed.

Lemma distinct_from_seen seen l1 l2 :
  (∀ c, c ∈ l2 → c ∈ seen ∨ c ∈ l1) →
  distinct_from seen (l1 ++ l2) = distinct_from seen l1.
Proof.
  revert seen. induction l1 as [|x l1 IH]; intros seen Hl2; simpl.
  - induction l2 as [|y l2 IH2]; simpl; [done|].
    destruct (Hl2 y) as [Hy|Hy%elem_of_nil]; [by left| |done].
    rewrite decide_True by done. apply IH2. intros c Hc. apply Hl2. by right.
  - case_decide.
    + apply IH. intros c Hc. destruct (Hl2 c Hc) as [?|[->|?]%elem_of_cons]; auto.
    + f_equal. apply IH. intros c Hc. rewrite elem_of_cons.
      destruct (Hl2 c Hc) as [?|[->|?]%elem_of_cons]; auto.
Qed.

Section Categories.
Context `{Runtime}.

(** X11.  In any state the category buttons are [All] followed by the
    categories of the merged list, each once, in the order in which they
    first occur; the buttons do not depend on the search text, the selected
    category or the page number, so a search never removes a button. *)
Theorem categories_characterised (s : ViewState) :
  (∃ rest, categories s = "All" :: rest ∧ NoDup rest ∧
           ∀ c, c ∈ rest ↔ ∃ a, a ∈ allArticles s ∧ category a = c) ∧
  (∀ text c f,
     categories (setSearchQuery text s) = categories s ∧
     categories (setSelectedCategory c s) = categories s ∧
     categories (setCurrentPage f s) = categories s).
Proof.
  split; [|done].
  exists (distinct_from [] (map category (allArticles s))).
  split; [done|]. split; [apply NoDup_distinct_from|].
  intros c. rewrite elem_of_distinct_from, list_elem_of_In, List.in_map_iff.
  split.
  - intros [(a & Ha & Hin%list_elem_of_In) _]. eauto.
  - intros (a & Hin%list_elem_of_In & Ha). split; [eauto|apply not_elem_of_nil].
Qed.

Lemma converted_categories s :
  converted s → categories s = categories initialView.
Proof.
  intros Hconv. unfold categories, allArticles. apply (f_equal (cons "All")).
  rewrite map_app. simpl pseoPages. rewrite app_nil_r.
  apply distinct_from_seen. intros c Hc%list_elem_of_In.
  apply List.in_map_iff in Hc as (a & <- & Ha%list_elem_of_In).
  unfold converted in Hconv. rewrite Forall_forall in Hconv.
  destruct (Hconv a Ha) as [-> _]. right.
  decide_by_compute.
Qed.

Lemma fetch_converted outcome s :
  converted s → converted (fst (fetchPSEOPages outcome s)).
Proof.
  intros Hconv. destruct outcome as [error|[|] [error|pages]]; try done.
  unfold converted. simpl. apply Forall_forall.
  intros a Ha%list_elem_of_In.
  by apply List.in_map_iff in Ha as (p & <- & _).
Qed.

Lemma dispatch_pseoPages e s :
  (∀ outcome, e ≠ Fetched outcome) → pseoPages (dispatch e s) = pseoPages s.
Proof.
  intros He. unfold dispatch, resetPageEffect.
  destruct e as [outcome| | | | | |]; [by destruct (He outcome)|..];
    by case_decide.
Qed.

Lemma quiescent_converted s : quiescent s → converted s.
Proof.
  induction 1 as [|s e Hq IH He]; [constructor|].
  destruct e as [outcome| | | | | |];
    try (unfold converted; by rewrite dispatch_pseoPages).
  rewrite dispatch_fetched. by apply fetch_converted.
Qed.

(** X12.  Whatever the fetch returns, the page shows the same thirteen
    category buttons as on mount: every fetched page is filed under
    [Location Investment], which the static articles already use.  The
    buttons are pairwise distinct, as their React keys have to be. *)
Theorem fetched_pages_add_no_category (s : ViewState) :
  quiescent s →
  categories s = categories initialView ∧
  length (categories s) = 13%nat ∧
  NoDup (categories s).
Proof.
  intros Hq. rewrite (converted_categories s (quiescent_converted s Hq)).
  split; [done|]. split; [by vm_compute|].
  decide_by_compute.
Qed.
End Categories.

Lemma fetched_pages_add_no_category_witness :
  categories loaded = categories initialView ∧
  length (categories loaded) = 13%nat ∧
  NoDup (categories loaded).
Proof.
  apply (@fetched_pages_add_no_category ascii_runtime loaded).
  unfold loaded. apply quiet_dispatch; [apply quiet_mount|reflexivity].
Defined.

(** ** The fetch *)

Section Fetch.
Context `{Runtime}.

(** X13.  When the fetch returns [pages], the merged list is the fifteen
    static articles in their order followed by the conversions of the
    pages in the order returned: its length is 15 plus the number of
    pages, nothing is dropped or merged even when identifiers coincide,
    every fetched article carries the identifier of its page, is marked
    [pseo] and filed under [Location Investment], and [loading] is
    false. *)
Theorem successful_fetch_appends_pages (pages : list (Seo.Page * nat)) (s : ViewState) :
  quiescent s → enabled s (Fetched (Responded true (Pages pages))) = true →
  let s' := dispatch (Fetched (Responded true (Pages pages))) s in
  allArticles s'
    = staticArticles ++ map (λ p, convertPSEOToArticle (fst p) (snd p)) pages ∧
  length (allArticles s') = (15 + length pages)%nat ∧
  map id (pseoPages s') = map (λ p, Seo.id (fst p)) pages ∧
  converted s' ∧
  loading s' = false ∧ currentPage s' = 1.
Proof.
  intros Hq He s'. unfold s'. rewrite (quiescent_loading s Hq He).
  rewrite dispatch_fetched.
  change (fst (fetchPSEOPages (Responded true (Pages pages)) initialView))
    with (setLoading false
            (setPseoPages (map (λ p, convertPSEOToArticle (fst p) (snd p)) pages)
               initialView)).
  split; [reflexivity|]. split.
  { unfold allArticles. rewrite length_app.
    change (pseoPages _) with (map (λ p, convertPSEOToArticle (fst p) (snd p)) pages).
    rewrite length_map. reflexivity. }
  split.
  { change (pseoPages _) with (map (λ p, convertPSEOToArticle (fst p) (snd p)) pages).
    by rewrite map_map. }
  split; [|split; reflexivity].
  apply (fetch_converted (Responded true (Pages pages)) initialView). constructor.
Qed.

(** X14.  [fetchPSEOPages] clears [loading] however the fetch ends, and
    never touches the search text, the selected category or the page
    number; it replaces the fetched pages only when the response is a
    success with a usable body.  It writes to the console exactly when
    something threw: a response with a non-success status is dropped
    without a diagnostic. *)
Theorem fetch_always_clears_loading (outcome : FetchOutcome) (s : ViewState) :
  loading (fst (fetchPSEOPages outcome s)) = false ∧
  searchQuery (fst (fetchPSEOPages outcome s)) = searchQuery s ∧
  selectedCategory (fst (fetchPSEOPages outcome s)) = selectedCategory s ∧
  currentPage (fst (fetchPSEOPages outcome s)) = currentPage s ∧
  (fetch_failed outcome = true →
   pseoPages (fst (fetchPSEOPages outcome s)) = pseoPages s) ∧
  (snd (fetchPSEOPages outcome s) ≠ [] ↔
   (∃ error, outcome = Rejected error) ∨
   (∃ error, outcome = Responded true (Unreadable error))) ∧
  (∀ body, snd (fetchPSEOPages (Responded false body) s) = []).
Proof.
  repeat split; try by destruct outcome as [error|[|] [error|pages]].
  - destruct outcome as [error|[|] [error|pages]]; simpl; intros Hlog; eauto; done.
  - by intros [[error ->]|[error ->]].
Qed.

(** X15.  The page fetches once: after the fetch has ended no state the
    page reaches is loading again, no further fetch result is awaited, and
    no event changes the fetched pages, so the merged list and the category
    buttons stay what they were when loading ended. *)
Theorem catalogue_is_fixed_once_loaded (e : Event) (s : ViewState) :
  quiescent s → loading s = false → enabled s e = true →
  (∀ outcome, e ≠ Fetched outcome) ∧
  loading (dispatch e s) = false ∧
  pseoPages (dispatch e s) = pseoPages s ∧
  allArticles (dispatch e s) = allArticles s ∧
  categories (dispatch e s) = categories s.
Proof.
  intros Hq Hload He.
  assert (∀ outcome, e ≠ Fetched outcome) as Hne.
  { intros outcome ->. simpl in He. congruence. }
  split; [done|]. split; [by apply dispatch_loading|].
  pose proof (dispatch_pseoPages e s Hne) as Hp.
  split; [done|]. unfold categories, allArticles. by rewrite Hp.
Qed.
End Fetch.

#[local] Existing Instance ascii_runtime.

Lemma successful_fetch_appends_pages_witness :
  length (allArticles loaded) = 17%nat ∧
  map id (pseoPages loaded) = ["s1"; "1"] ∧
  map slug (pseoPages loaded)
    = ["../investment/west-bengal/new-jalpaiguri"; "../investment/assam/tezpur"].
Proof.
  destruct (successful_fetch_appends_pages sample_pages initialView)
    as (_ & Hlen & Hids & _); [apply quiet_mount|reflexivity|].
  split; [exact Hlen|]. split; [exact Hids|reflexivity].
Defined.

Lemma fetch_always_clears_loading_witness :
  pseoPages (fst (fetchPSEOPages (Responded false (Pages sample_pages)) initialView)) = [].
Proof.
  destruct (fetch_always_clears_loading (Responded false (Pages sample_pages)) initialView)
    as (_ & _ & _ & _ & Hkeep & _).
  apply Hkeep. reflexivity.
Defined.

Lemma catalogue_is_fixed_once_loaded_witness :
  pseoPages (dispatch (CategoryClicked "Technology") loaded) = pseoPages loaded ∧
  loading (dispatch (CategoryClicked "Technology") loaded) = false.
Proof.
  destruct (catalogue_is_fixed_once_loaded (CategoryClicked "Technology") loaded)
    as (_ & Hload & Hpages & _).
  - unfold loaded. apply quiet_dispatch; [apply quiet_mount|reflexivity].
  - reflexivity.
  - by vm_compute.
  - split; [exact Hpages|exact Hload].
Defined.

(** ** Narrowing the filtered view *)

Lemma filter_all {A} (f : A → bool) (l : list A) :
  (∀ a, a ∈ l → f a = true) → List.filter f l = l.
Proof.
  induction l as [|x l IH]; intros Hall; simpl; [done|].
  rewrite (Hall x) by by left. f_equal. apply IH. intros a Ha. apply Hall. by right.
Qed.

Lemma filter_sublist_impl {A} (f g : A → bool) (l : list A) :
  (∀ a, a ∈ l → f a = true → g a = true) →
  List.filter f l `sublist_of` List.filter g l.
Proof.
  induction l as [|x l IH]; intros Himp; simpl; [constructor|].
  assert (List.filter f l `sublist_of` List.filter g l) as Hrec.
  { apply IH. intros a Ha. apply Himp. by right. }
  destruct (f x) eqn:Hf.
  - rewrite (Himp x) by (done || by left). by constructor.
  - destruct (g x); [by constructor|done].
Qed.

Lemma includes_empty s : includes s "" = true.
Proof. apply includes_spec. by exists "", s. Qed.

Lemma includes_trans s t u :
  includes s t = true → includes t u = true → includes s u = true.
Proof.
  rewrite !includes_spec. intros (pre & post & ->) (pre' & post' & ->).
  exists (pre +:+ pre'), (post' +:+ post).
  by rewrite !StringFacts.append_assoc.
Qed.

Section Narrowing.
Context `{Runtime}.

(** X16.  With an empty search text and the category [All] the filtered
    view is the whole merged list, so the page counts 15 plus the number
    of fetched pages; this needs of the runtime only that lower-casing the
    empty string gives the empty string. *)
Theorem all_selection_shows_everything (s : ViewState) :
  toLowerCase "" = "" → searchQuery s = "" → selectedCategory s = "All" →
  filteredArticles s = allArticles s ∧
  length (filteredArticles s) = (15 + length (pseoPages s))%nat.
Proof.
  intros Hlow Hq Hc.
  assert (filteredArticles s = allArticles s) as ->.
  { unfold filteredArticles. apply filter_all. intros a _.
    unfold matchesSearch, matchesCategory. rewrite Hq, Hlow, Hc.
    by rewrite includes_empty, bool_decide_eq_true_2. }
  split; [done|]. unfold allArticles. rewrite length_app. reflexivity.
Qed.

(** X17.  A search text that contains the current one, case ignored, can
    only narrow the view: with the category and the fetched pages as they
    are, the articles it selects are among those the current text selects,
    in the same order. *)
Theorem longer_search_narrows (text : string) (s : ViewState) :
  contains_ignoring_case text (searchQuery s) →
  filteredArticles (setSearchQuery text s) `sublist_of` filteredArticles s.
Proof.
  intros (pre & post & Htext).
  assert (includes (toLowerCase text) (toLowerCase (searchQuery s)) = true) as Hinc.
  { apply includes_spec. eauto. }
  unfold filteredArticles. apply filter_sublist_impl. intros a _.
  rewrite !andb_true_iff. intros [Hs Hc]. split; [|exact Hc].
  unfold matchesSearch in *. simpl in Hs.
  rewrite !orb_true_iff in *. rewrite !List.existsb_exists in *.
  destruct Hs as [[Ht|He]|(tag & Htag & Hi)].
  - left; left. by eapply includes_trans.
  - left; right. by eapply includes_trans.
  - right. exists tag. split; [done|]. by eapply includes_trans.
Qed.

(** X18.  Selecting a category can only narrow what [All] shows for the
    same search text, and under a category other than [All] every article
    shown carries that category. *)
Theorem category_narrows (c : string) (s : ViewState) :
  filteredArticles (setSelectedCategory c s)
    `sublist_of` filteredArticles (setSelectedCategory "All" s) ∧
  (c ≠ "All" →
   ∀ a, a ∈ filteredArticles (setSelectedCategory c s) → category a = c).
Proof.
  split.
  - unfold filteredArticles. apply filter_sublist_impl. intros a _.
    rewrite !andb_true_iff. intros [Hs _]. by split.
  - intros Hne a [_ [_ Hcat]]%elem_of_filteredArticles.
    apply matchesCategory_spec in Hcat as [Hall|Hcat]; [by destruct Hne|done].
Qed.
End Narrowing.

Lemma all_selection_shows_everything_witness :
  filteredArticles loaded = allArticles loaded ∧
  length (filteredArticles loaded) = 17%nat.
Proof.
  apply (all_selection_shows_everything loaded); reflexivity.
Defined.

Lemma longer_search_narrows_witness :
  filteredArticles (setSearchQuery "Farming" (setSearchQuery "farm" loaded))
    `sublist_of` filteredArticles (setSearchQuery "farm" loaded).
Proof.
  apply (longer_search_narrows "Farming" (setSearchQuery "farm" loaded)).
  by exists "", "ing".
Defined.

Lemma category_narrows_witness :
  Forall (λ a, category a = "Technology")
         (filteredArticles (setSelectedCategory "Technology" loaded)).
Proof.
  destruct (category_narrows "Technology" loaded) as [_ Hcat].
  apply Forall_forall. apply Hcat. discriminate.
Defined.

(** ** Pages *)

Lemma chunks_concat {A} (c : nat) (l : list A) (n : nat) :
  (length l ≤ c * n)%nat →
  concat (map (λ k, take c (drop (c * k) l)) (seq 0 n)) = l.
Proof.
  revert l. induction n as [|n IH]; intros l Hlen.
  - destruct l; [done|simpl in Hlen; lia].
  - change (seq 0 (S n)) with (0%nat :: seq 1 n).
    rewrite <- List.seq_shift, map_cons, map_map.
    change (concat (?x :: ?xs)) with (x ++ concat xs).
    rewrite Nat.mul_0_r, drop_0.
    rewrite (map_ext _ (λ k, take c (drop (c * k) (drop c l)))).
    + rewrite IH; [apply take_drop|]. rewrite length_drop. lia.
    + intros k. rewrite drop_drop. do 2 f_equal. lia.
Qed.

Lemma relative_index_step (len a : Z) (n : nat) :
  0 ≤ len → relative_index len (a + Z.of_nat n) - relative_index len a ≤ Z.of_nat n.
Proof.
  intros Hlen. unfold relative_index.
  destruct (Z.ltb_spec (a + Z.of_nat n) 0), (Z.ltb_spec a 0); lia.
Qed.

Lemma slice_length_le {A} (l : list A) (a : Z) (n : nat) :
  (length (slice l a (a + Z.of_nat n)) ≤ n)%nat.
Proof.
  unfold slice. rewrite length_take.
  pose proof (relative_index_step (Z.of_nat (length l)) a n). lia.
Qed.

Lemma slice_sublist {A} (l : list A) (a b : Z) : slice l a b `sublist_of` l.
Proof.
  unfold slice. etrans; [apply sublist_take|apply sublist_drop].
Qed.

Section Pages.
Context `{Runtime}.

Lemma page_at_window s p :
  1 ≤ p →
  page_at s p = take 12 (drop (Z.to_nat ((p - 1) * 12)) (filteredArticles s)).
Proof.
  intros Hp. unfold page_at, paginatedArticles, startIndex, itemsPerPage.
  rewrite (filteredArticles_ext s) by done.
  change (currentPage (setCurrentPage (λ _, p) s)) with p.
  apply (slice_window (filteredArticles s) ((p - 1) * 12) 12). lia.
Qed.

(** X19.  The pages partition the filtered view: the slices shown for the
    page numbers 1 to the page count, one after the other, are the
    filtered view; every page before the last shows twelve articles, the
    last between one and twelve, and a page number beyond the count shows
    nothing. *)
Theorem pages_partition_view (s : ViewState) :
  concat (map (page_at s) (pageNumbers s)) = filteredArticles s ∧
  (∀ p, 1 ≤ p < totalFilteredPages s → length (page_at s p) = 12%nat) ∧
  (1 ≤ totalFilteredPages s →
   (1 ≤ length (page_at s (totalFilteredPages s)) ≤ 12)%nat) ∧
  (∀ p, 1 ≤ p → totalFilteredPages s < p → page_at s p = []).
Proof.
  pose proof (totalFilteredPages_bounds s) as Hb.
  set (T := totalFilteredPages s) in *. set (F := filteredArticles s) in *.
  split; [|split; [|split]].
  - unfold pageNumbers. fold T. rewrite map_map.
    rewrite (map_ext _ (λ k, take 12 (drop (12 * k) F))).
    + apply (chunks_concat 12). lia.
    + intros k. rewrite page_at_window by lia. fold F. do 2 f_equal. lia.
  - intros p Hp. rewrite page_at_window by lia. fold F.
    rewrite length_take, length_drop. lia.
  - intros HT. rewrite page_at_window by lia. fold F.
    rewrite length_take, length_drop. lia.
  - intros p Hp Hbeyond. rewrite page_at_window by lia. fold F.
    rewrite drop_ge by lia. apply take_nil.
Qed.

(** X20.  Whatever the page number, the page shows at most twelve
    articles, all of them from the filtered view and in its order.  In a
    state in which the page waits for an event, it shows at least one
    article whenever the filtered view has one: the empty page of the
    render before the reset effect does not stay. *)
Theorem shown_page_is_not_empty (s : ViewState) :
  (length (paginatedArticles s) ≤ 12)%nat ∧
  paginatedArticles s `sublist_of` filteredArticles s ∧
  (quiescent s → filteredArticles s ≠ [] →
   (1 ≤ length (paginatedArticles s))%nat).
Proof.
  split; [apply (slice_length_le _ _ 12)|]. split; [apply slice_sublist|].
  intros Hq Hne. destruct (quiescent_page_in_range s Hq) as [Hlow Hhigh].
  pose proof (totalFilteredPages_bounds s) as Hb.
  unfold paginatedArticles, startIndex, itemsPerPage.
  rewrite (slice_window (filteredArticles s) ((currentPage s - 1) * 12) 12) by lia.
  rewrite length_take, length_drop.
  destruct (filteredArticles s) as [|a l] eqn:HF; [done|].
  change (length (a :: l)) with (S (length l)) in *. lia.
Qed.

Lemma setCurrentPage_fixed f s :
  f (currentPage s) = currentPage s → setCurrentPage f s = s.
Proof. intros Hf. destruct s. unfold setCurrentPage. simpl in *. by f_equal. Qed.

(** X21.  [Next] and [Previous] undo each other: in a state in which the
    page waits for an event, wherever [Next] is enabled it leads to a state
    in which [Previous] is enabled and leads back, and the other way
    round. *)
Theorem next_and_previous_are_inverse (s : ViewState) :
  quiescent s →
  (enabled s NextClicked = true →
   enabled (dispatch NextClicked s) PreviousClicked = true ∧
   dispatch PreviousClicked (dispatch NextClicked s) = s) ∧
  (enabled s PreviousClicked = true →
   enabled (dispatch PreviousClicked s) NextClicked = true ∧
   dispatch NextClicked (dispatch PreviousClicked s) = s).
Proof.
  intros Hq. destruct (quiescent_page_in_range s Hq) as [Hlow Hhigh].
  split; intros He.
  - rewrite !dispatch_navigates by done.
    simpl in He. rewrite !andb_true_iff, !negb_true_iff in He.
    rewrite Z.ltb_lt, Z.eqb_neq in He. destruct He as [[Hload HT] Hend].
    unfold handle, enabled.
    rewrite !totalFilteredPages_setCurrentPage.
    change (loading (setCurrentPage _ s)) with (loading s).
    change (currentPage (setCurrentPage ?f s)) with (f (currentPage s)).
    split.
    + rewrite Hload. simpl negb. rewrite andb_true_l, andb_true_iff.
      rewrite Z.ltb_lt, negb_true_iff, Z.eqb_neq. lia.
    + change (setCurrentPage ?f (setCurrentPage ?g s))
        with (setCurrentPage (λ prev, f (g prev)) s).
      apply setCurrentPage_fixed. lia.
  - rewrite !dispatch_navigates by done.
    simpl in He. rewrite !andb_true_iff, !negb_true_iff in He.
    rewrite Z.ltb_lt, Z.eqb_neq in He. destruct He as [[Hload HT] Hend].
    unfold handle, enabled.
    rewrite !totalFilteredPages_setCurrentPage.
    change (loading (setCurrentPage _ s)) with (loading s).
    change (currentPage (setCurrentPage ?f s)) with (f (currentPage s)).
    split.
    + rewrite Hload. simpl negb. rewrite andb_true_l, andb_true_iff.
      rewrite Z.ltb_lt, negb_true_iff, Z.eqb_neq. lia.
    + change (setCurrentPage ?f (setCurrentPage ?g s))
        with (setCurrentPage (λ prev, f (g prev)) s).
      apply setCurrentPage_fixed. lia.
Qed.

(** X22.  Setting the search text to what it is, or clicking the category
    that is selected, changes nothing: the dependencies of the reset effect
    are unchanged, so the reader stays on the page they were on. *)
Theorem unchanged_filter_keeps_page (s : ViewState) :
  dispatch (SearchChanged (searchQuery s)) s = s ∧
  dispatch (CategoryClicked (selectedCategory s)) s = s.
Proof.
  unfold dispatch. rewrite !resetPageEffect_same by done. by destruct s.
Qed.

Lemma iter_next_page (k : nat) (s : ViewState) :
  currentPage s ≤ totalFilteredPages s →
  totalFilteredPages (Nat.iter k (handle NextClicked) s) = totalFilteredPages s ∧
  currentPage (Nat.iter k (handle NextClicked) s)
  = Z.min (currentPage s + Z.of_nat k) (totalFilteredPages s).
Proof.
  intros Hle. induction k as [|k [IHT IHp]].
  - split; [done|]. simpl Nat.iter. lia.
  - change (Nat.iter (S k) (handle NextClicked) s)
      with (handle NextClicked (Nat.iter k (handle NextClicked) s)).
    unfold handle at 1 3. rewrite totalFilteredPages_setCurrentPage.
    split; [done|].
    change (currentPage (setCurrentPage ?f ?s')) with (f (currentPage s')).
    rewrite IHT, IHp. lia.
Qed.

(** X23.  [Next] walks through the pages and stops at the last: from a
    page number within the page count, [k] clicks lead to the page number
    raised by [k], capped at the page count, the filtered view staying as
    it is.  So every page, also those beyond the five numbered buttons,
    is reached from page 1. *)
Theorem next_reaches_every_page (k : nat) (s : ViewState) :
  currentPage s ≤ totalFilteredPages s →
  currentPage (Nat.iter k (handle NextClicked) s)
  = Z.min (currentPage s + Z.of_nat k) (totalFilteredPages s) ∧
  filteredArticles (Nat.iter k (handle NextClicked) s) = filteredArticles s.
Proof.
  intros Hle. split; [by apply iter_next_page|].
  induction k as [|k IH]; [done|].
  change (Nat.iter (S k) (handle NextClicked) s)
    with (handle NextClicked (Nat.iter k (handle NextClicked) s)).
  rewrite <- IH. by apply filteredArticles_ext.
Qed.
End Pages.

Ltac loaded_quiescent :=
  unfold loaded; apply quiet_dispatch; [apply quiet_mount|reflexivity].

Lemma pages_partition_view_witness :
  pageNumbers loaded = [1; 2] ∧
  (1 ≤ length (page_at loaded (totalFilteredPages loaded)) ≤ 12)%nat.
Proof.
  destruct (pages_partition_view loaded) as (_ & _ & Hlast & _).
  split; [by vm_compute|]. apply Hlast. by vm_compute.
Defined.

Lemma shown_page_is_not_empty_witness :
  (1 ≤ length (paginatedArticles loaded))%nat.
Proof.
  destruct (shown_page_is_not_empty loaded) as (_ & _ & Hone).
  apply Hone; [loaded_quiescent|discriminate].
Defined.

Lemma next_and_previous_are_inverse_witness :
  dispatch PreviousClicked (dispatch NextClicked loaded) = loaded.
Proof.
  destruct (next_and_previous_are_inverse loaded) as [Hnext _]; [loaded_quiescent|].
  apply Hnext. by vm_compute.
Defined.

Lemma next_reaches_every_page_witness :
  currentPage (Nat.iter 5 (handle NextClicked) loaded) = 2.
Proof.
  destruct (next_reaches_every_page 5 loaded) as [-> _]; by vm_compute.
Defined.

End InsightsLaws.
